(** * mathplot: the view transform, grid planner and curve sampler of [index.js]

    A shallow embedding of the plotting core of [src/index.js]: the globals
    and the event handlers that change them (pan, wheel zoom, reset), the
    grid step and the tick loops of [drawGrid], and the evaluator and the
    sampling loop of [drawCurve].  The definitions come first, in the order
    of the source; the properties follow, each claim of the specification
    under its number.

    Numbers.  JavaScript numbers are IEEE-754 doubles.  The main embedding
    reads the finite ones as exact rationals [Q]: [+], [-], [*], [/] and
    the comparisons are the exact ones, so a statement about it is a
    statement of exact arithmetic and says nothing about rounding.  Where a
    property of the specification is exact only in that reading, the module
    [B64] further down runs the same lines on binary64 and a lemma shows the
    difference at a concrete state.  [Qdiv] agrees with
    the JavaScript division only for a non-zero divisor; every division of
    the source divides by [config.scale], by a power of ten or by a grid
    step, and the theorems that depend on such a quotient assume, or
    establish, that the divisor is positive.

    The non-finite results a user expression can produce ([NaN], the two
    infinities, [undefined]) only occur as return values of the evaluator
    and are kept symbolic in [jsval].  The values that are neither numbers
    nor [undefined] are in the module [Js]. *)

From Stdlib Require Import Reals Qreals.
From Stdlib Require Lra Floats.
From Stdlib Require Import QArith Qround Qpower Qabs Qminmax Qfield.
From Stdlib Require Import ZArith Lia Lqa Bool String List.
Import ListNotations.

Open Scope Q_scope.

(** ** Comparisons of the source as boolean tests *)

(** [a < b] of JavaScript on finite numbers. *)
Definition Qltb (a b : Q) : bool := negb (Qle_bool b a).

(** [a > b]. *)
Definition Qgtb (a b : Q) : bool := Qltb b a.

(** ** Values returned by a user expression *)

Inductive jsval : Type :=
| Num (q : Q)
| NaN
| PosInf
| NegInf
| Undefined.

(** The global [isNaN] on a number or [undefined]: [ToNumber(undefined)]
    is [NaN].  For the values on which [ToNumber] throws see [Js.isNaN]. *)
Definition isNaN (v : jsval) : bool :=
  match v with
  | NaN | Undefined => true
  | Num _ | PosInf | NegInf => false
  end.

(** The global [isFinite], on a number or [undefined]. *)
Definition isFinite (v : jsval) : bool :=
  match v with
  | Num _ => true
  | NaN | PosInf | NegInf | Undefined => false
  end.

(** How running a piece of JavaScript ends: with a value, or with an
    exception thrown (a [SyntaxError] of [new Function], a [ReferenceError]
    or anything the body throws). *)
Inductive completion : Type :=
| Normal (v : jsval)
| Throw.

(** ** Configuration and globals (index.js, lines 7-20 and 73-75) *)

Record Config : Type := mkConfig {
  scale : Q;          (* pixels per unit *)
  offsetX : Q;
  offsetY : Q;
  step : Q;
  axisColor : string;
  gridColor : string;
  lineColor : string;
  lineWidth : Q
}.

Definition default_config : Config :=
  {| scale := 40; offsetX := 0; offsetY := 0; step := 0.05;
     axisColor := "#fff";
     gridColor := "rgba(255, 255, 255, 0.1)";
     lineColor := "#06b6d4";
     lineWidth := 3 |}.

Definition set_scale (v : Q) (c : Config) : Config :=
  {| scale := v; offsetX := offsetX c; offsetY := offsetY c; step := step c;
     axisColor := axisColor c; gridColor := gridColor c;
     lineColor := lineColor c; lineWidth := lineWidth c |}.

Definition set_offsetX (v : Q) (c : Config) : Config :=
  {| scale := scale c; offsetX := v; offsetY := offsetY c; step := step c;
     axisColor := axisColor c; gridColor := gridColor c;
     lineColor := lineColor c; lineWidth := lineWidth c |}.

Definition set_offsetY (v : Q) (c : Config) : Config :=
  {| scale := scale c; offsetX := offsetX c; offsetY := v; step := step c;
     axisColor := axisColor c; gridColor := gridColor c;
     lineColor := lineColor c; lineWidth := lineWidth c |}.

(** The mutable globals of the script, together with the two pieces of DOM
    state the handlers read or write: the text of [functionInput] and the
    inline cursor style of the canvas.  [width] and [height] are
    [clientWidth] and [clientHeight], which are integers. *)
Record State : Type := mkState {
  config : Config;
  width : Z;
  height : Z;
  centerX : Q;
  centerY : Q;
  isDragging : bool;
  lastMouseX : Q;
  lastMouseY : Q;
  cursor : string;
  inputValue : string
}.

Definition set_config (c : Config) (s : State) : State :=
  {| config := c; width := width s; height := height s;
     centerX := centerX s; centerY := centerY s;
     isDragging := isDragging s;
     lastMouseX := lastMouseX s; lastMouseY := lastMouseY s;
     cursor := cursor s; inputValue := inputValue s |}.

Definition set_viewport (w h : Z) (cx cy : Q) (s : State) : State :=
  {| config := config s; width := w; height := h;
     centerX := cx; centerY := cy;
     isDragging := isDragging s;
     lastMouseX := lastMouseX s; lastMouseY := lastMouseY s;
     cursor := cursor s; inputValue := inputValue s |}.

Definition set_drag (d : bool) (mx my : Q) (cur : string) (s : State) : State :=
  {| config := config s; width := width s; height := height s;
     centerX := centerX s; centerY := centerY s;
     isDragging := d;
     lastMouseX := mx; lastMouseY := my;
     cursor := cur; inputValue := inputValue s |}.

Definition set_inputValue (v : string) (s : State) : State :=
  {| config := config s; width := width s; height := height s;
     centerX := centerX s; centerY := centerY s;
     isDragging := isDragging s;
     lastMouseX := lastMouseX s; lastMouseY := lastMouseY s;
     cursor := cursor s; inputValue := v |}.

(** ** The coordinate formulas

    The source has no function for them; the same four expressions are
    written out where they are needed. *)

(** [centerX + (x + config.offsetX) * config.scale]  (drawGrid, line 219). *)
Definition screenX (s : State) (x : Q) : Q :=
  centerX s + (x + offsetX (config s)) * scale (config s).

(** [centerY - (y - config.offsetY) * config.scale]
    (drawGrid, line 238; drawCurve, line 311). *)
Definition screenY (s : State) (y : Q) : Q :=
  centerY s - (y - offsetY (config s)) * scale (config s).

(** [(px - centerX) / config.scale - config.offsetX]
    (wheel handler, line 136; drawCurve, line 295). *)
Definition mathX (s : State) (px : Q) : Q :=
  (px - centerX s) / scale (config s) - offsetX (config s).

(** [-(py - centerY) / config.scale + config.offsetY]
    (wheel handler, line 138). *)
Definition mathY (s : State) (py : Q) : Q :=
  (- (py - centerY s)) / scale (config s) + offsetY (config s).

(** ** Event handlers

    Every handler ends in [draw()], which reads the globals and paints and
    assigns none of them; what it paints is given further down as functions
    of the state ([calculateStep], [xTicks], [yTicks], [drawCurve]) and the
    handlers below are the state changes. *)

(** [resize] (lines 22-30), with the parent's [clientWidth] and
    [clientHeight]. *)
Definition resize (clientWidth clientHeight : Z) (s : State) : State :=
  set_viewport clientWidth clientHeight
    (inject_Z clientWidth / 2) (inject_Z clientHeight / 2) s.

(** Click on [resetView] (lines 33-38). *)
Definition onReset (s : State) : State :=
  let c := set_scale 40 (config s) in
  let c := set_offsetX 0 c in
  let c := set_offsetY 0 c in
  set_config c s.

(** [input] event (lines 40-42): the DOM has already replaced the text. *)
Definition onInput (value : string) (s : State) : State :=
  set_inputValue value s.

(** [mousedown] (lines 77-84). *)
Definition onMouseDown (button : Z) (clientX clientY : Q) (s : State) : State :=
  if (button =? 0)%Z
  then set_drag true clientX clientY "grabbing" s
  else s.

(** [mouseup] (lines 86-89). *)
Definition onMouseUp (s : State) : State :=
  set_drag false (lastMouseX s) (lastMouseY s) "crosshair" s.

(** [mousemove] (lines 91-120): the pan.  The quotient and the sum of
    lines 100-101 are the exact ones here; [B64.onMouseMove] has them
    rounded. *)
Definition onMouseMove (clientX clientY : Q) (s : State) : State :=
  if isDragging s then
    let dx := clientX - lastMouseX s in
    let dy := clientY - lastMouseY s in
    let c := config s in
    let c := set_offsetX (offsetX c + dx / scale c) c in
    let c := set_offsetY (offsetY c + dy / scale c) c in
    let s := set_config c s in
    set_drag (isDragging s) clientX clientY (cursor s) s
  else s.

(** [wheel] (lines 122-162): zoom around the cursor.  [rectLeft] and
    [rectTop] are the two fields read from [getBoundingClientRect()].  The
    offsets are recomputed in exact arithmetic here; [B64.onWheel] has them
    rounded.  The clamp assigns the two literals in either reading. *)
Definition onWheel (deltaY clientX clientY rectLeft rectTop : Q) (s : State)
  : State :=
  let zoomIntensity := 0.1 in
  let direction := if Qltb deltaY 0 then 1 else -1 in
  let factor := 1 + zoomIntensity * direction in
  let mouseX := clientX - rectLeft in
  let mouseY := clientY - rectTop in
  let c := config s in
  let mathX := (mouseX - centerX s) / scale c - offsetX c in
  let mathY := (- (mouseY - centerY s)) / scale c + offsetY c in
  let newScale := scale c * factor in
  let newScale := if Qltb newScale 0.001 then 0.001 else newScale in
  let newScale := if Qgtb newScale 100000 then 100000 else newScale in
  let c := set_scale newScale c in
  let c := set_offsetX ((mouseX - centerX s) / scale c - mathX) c in
  let c := set_offsetY (mathY - (centerY s - mouseY) / scale c) c in
  set_config c s.

Inductive Event : Type :=
| Resize (clientWidth clientHeight : Z)
| ResetClick
| InputChanged (value : string)
| MouseDown (button : Z) (clientX clientY : Q)
| MouseUp
| MouseMove (clientX clientY : Q)
| Wheel (deltaY clientX clientY rectLeft rectTop : Q).

Definition handle (s : State) (e : Event) : State :=
  match e with
  | Resize w h => resize w h s
  | ResetClick => onReset s
  | InputChanged v => onInput v s
  | MouseDown b x y => onMouseDown b x y s
  | MouseUp => onMouseUp s
  | MouseMove x y => onMouseMove x y s
  | Wheel d x y l t => onWheel d x y l t s
  end.

(** The state once the script has run to its last line ([resize()], line
    341) in a page whose canvas parent is [w] by [h] and whose input holds
    [expr]. *)
Definition initial (w h : Z) (expr : string) : State :=
  resize w h
    {| config := default_config; width := 0; height := 0;
       centerX := 0; centerY := 0;
       isDragging := false; lastMouseX := 0; lastMouseY := 0;
       cursor := ""; inputValue := expr |}.

(** The events are handled one after the other, each to completion. *)
Definition run (s : State) (es : list Event) : State := fold_left handle es s.

(** The page of the spec's scenarios: an 800 by 600 viewport, the default
    transform, the expression [x*x]. *)
Definition demo : State := initial 800 600 "x*x".

(** [demo] zoomed in as far as the clamp allows. *)
Definition demo_max : State :=
  set_config (set_scale 100000 default_config) demo.

(** [demo] in the middle of a drag that started at pixel (100, 100). *)
Definition demo_drag : State := onMouseDown 0 100 100 demo.

(** [scale] lies between [SCALE_MIN] and [SCALE_MAX]. *)
Definition scale_in_range (s : State) : Prop :=
  0.001 <= scale (config s) <= 100000.

(** ** The grid step (calculateStep, lines 164-180) *)

(** [Math.log10] on the real numbers.  It is not a rational function, so it
    only serves to state what [floor_log10] computes ([floor_log10_real]
    below). *)
Definition log10 (x : R) : R := (ln x / ln 10)%R.

(** [Math.floor(Math.log10(u))] for a positive [u]: the integer [k] with
    [10^k <= u < 10^(k+1)] ([floor_log10_spec] and [floor_log10_unique]
    below), that is [Zfloor (log10 u)], found by counting up from [0] when
    [1 <= u] and down from [-1] otherwise.  The numerator, respectively the
    denominator, has fewer decimal than binary digits, so its bit length is
    enough fuel.  [Math.pow(10, k)] for an integer [k] is [10 ^ k].
    Only a positive argument is meaningful: JavaScript gives [-Infinity] at
    [0] and [NaN] below. *)
Fixpoint log10_up (fuel : nat) (k : Z) (u : Q) : Z :=
  match fuel with
  | O => k
  | S f => if Qle_bool (10 ^ (k + 1)) u then log10_up f (k + 1) u else k
  end.

Fixpoint log10_down (fuel : nat) (k : Z) (u : Q) : Z :=
  match fuel with
  | O => k
  | S f => if Qle_bool (10 ^ k) u then k else log10_down f (k - 1) u
  end.

Definition floor_log10 (u : Q) : Z :=
  if Qle_bool 1 u
  then log10_up (Pos.size_nat (Z.to_pos (Qnum u))) 0 u
  else log10_down (Pos.size_nat (Qden u)) (-1) u.

Definition calculateStep (c : Config) : Q :=
  let targetPixels := 80 in
  let stepUnits := targetPixels / scale c in
  let magnitude := 10 ^ floor_log10 stepUnits in
  let residual := stepUnits / magnitude in
  if Qgtb residual 5 then 10 * magnitude
  else if Qgtb residual 2 then 5 * magnitude
  else if Qgtb residual 1 then 2 * magnitude
  else magnitude.

(** ** The tick loops of drawGrid (lines 188-248) *)

Definition startX (s : State) : Q :=
  (- centerX s) / scale (config s) - offsetX (config s).
Definition endX (s : State) : Q :=
  (inject_Z (width s) - centerX s) / scale (config s) - offsetX (config s).
Definition startY (s : State) : Q :=
  (- centerY s) / scale (config s) + offsetY (config s).
Definition endY (s : State) : Q :=
  (inject_Z (height s) - centerY s) / scale (config s) + offsetY (config s).

Definition minX (s : State) : Q :=
  let step := calculateStep (config s) in
  inject_Z (Qfloor (startX s / step)) * step.
Definition maxX (s : State) : Q :=
  let step := calculateStep (config s) in
  inject_Z (Qceiling (endX s / step)) * step.
Definition minY (s : State) : Q :=
  let step := calculateStep (config s) in
  inject_Z (Qfloor (Qmin (startY s) (endY s) / step)) * step.
Definition maxY (s : State) : Q :=
  let step := calculateStep (config s) in
  inject_Z (Qceiling (Qmax (startY s) (endY s) / step)) * step.


(** [for (let x = lo; x <= hi; x += step) { ... }]: the values the loop
    variable takes, in order.  The bodies (lines 217-229 and 237-247) only
    draw; they assign neither the loop variable nor the bound nor the step.
    The loop itself has no bound on its iterations, so the model takes fuel:
    [None] says that [fuel] iterations did not reach the exit.  Here
    [x + step] is the exact sum, which always advances; [B64.for_ticks] has
    the rounded one, which need not. *)
Fixpoint for_ticks (fuel : nat) (x hi step : Q) : option (list Q) :=
  match fuel with
  | O => None
  | S f =>
      if Qle_bool x hi
      then option_map (cons x) (for_ticks f (x + step) hi step)
      else Some []
  end.

Definition xTicks (fuel : nat) (s : State) : option (list Q) :=
  for_ticks fuel (minX s) (maxX s) (calculateStep (config s)).

Definition yTicks (fuel : nat) (s : State) : option (list Q) :=
  for_ticks fuel (minY s) (maxY s) (calculateStep (config s)).

(** ** The curve (evaluateFunction, lines 52-70; drawCurve, lines 280-333) *)

(** The path calls of drawCurve on the 2D context. *)
Inductive PathCmd : Type :=
| MoveTo (xPixel : Z) (yPixel : Q)
| LineTo (xPixel : Z) (yPixel : Q).

Definition cmd_x (c : PathCmd) : Z :=
  match c with MoveTo x _ | LineTo x _ => x end.

Definition cmd_point (c : PathCmd) : Z * Q :=
  match c with MoveTo x y | LineTo x y => (x, y) end.

(** The subpaths a list of path calls builds on the canvas: [moveTo] opens
    a subpath, [lineTo] extends the open one (and opens one when none is
    open).  These are the path segments of the spec. *)
Fixpoint segments (cmds : list PathCmd) : list (list (Z * Q)) :=
  match cmds with
  | [] => []
  | c :: rest =>
      match rest with
      | LineTo _ _ :: _ =>
          match segments rest with
          | seg :: segs => (cmd_point c :: seg) :: segs
          | [] => [[cmd_point c]]
          end
      | _ => [cmd_point c] :: segments rest
      end
  end.

(** [try { body } catch (e) { handler }] for a body that is one
    expression. *)
Definition try_catch (body handler : completion) : completion :=
  match body with
  | Normal v => Normal v
  | Throw => handler
  end.

(** The pixel columns [0, 1, ..., width] of
    [for (let xPixel = 0; xPixel <= width; xPixel++)]. *)
Definition columns (s : State) : list Z :=
  map Z.of_nat (seq 0 (Z.to_nat (width s + 1))).

(** The text compiled by [new Function]: [`return ${expression};`]. *)
Definition function_body (expression : string) : string :=
  "return " ++ expression ++ ";".

(** The test of line 304, [isNaN(y) || !isFinite(y)]: the sample is no
    point of the curve. *)
Definition breaks (y : jsval) : bool := isNaN y || negb (isFinite y).

Section Evaluator.

(** [run_body body x]: what [new Function(...keys, 'x', body)] followed by
    the call [f(...values, x)] does, where [keys] and [values] are the
    properties of [Math].  It is the evaluator of the spec, which returns a
    number or [undefined]; the other JavaScript values are in [Js] below.
    Within one render pass the expression is taken to be a function of [x]
    and to leave the globals alone. *)
Variable run_body : string -> Q -> completion.

Definition evaluateFunction (expression : string) (x : Q) : completion :=
  try_catch (run_body (function_body expression) x) (Normal NaN).

(** The value of [y] after the [try]/[catch] of lines 297-302. *)
Definition sample (expression : string) (x : Q) : jsval :=
  match try_catch (evaluateFunction expression x) (Normal NaN) with
  | Normal v => v
  | Throw => NaN
  end.

(** The body of the loop of drawCurve, over the columns still to visit. *)
Fixpoint curve_loop (s : State) (expression : string)
         (cols : list Z) (firstPoint : bool) : list PathCmd :=
  match cols with
  | [] => []
  | xPixel :: rest =>
      let x :=
        (inject_Z xPixel - centerX s) / scale (config s)
        - offsetX (config s) in
      let y := sample expression x in
      if breaks y
      then curve_loop s expression rest true
      else
        match y with
        | Num y =>
            let yPixel :=
              centerY s - (y - offsetY (config s)) * scale (config s) in
            (if firstPoint then MoveTo xPixel yPixel
             else LineTo xPixel yPixel)
            :: curve_loop s expression rest false
        | _ => curve_loop s expression rest true (* excluded by the test *)
        end
  end.

Definition drawCurve (s : State) : list PathCmd :=
  let expression := inputValue s in
  if String.eqb expression "" then []
  else curve_loop s expression (columns s) true.

End Evaluator.

(** The math [x] of a pixel column, as drawCurve computes it (line 295). *)
Definition column_x (s : State) (xPixel : Z) : Q := mathX s (inject_Z xPixel).

(** The columns [0, ..., j-1] and [j+1, ..., width] on either side of
    column [j]. *)
Definition columns_before (j : Z) : list Z :=
  map Z.of_nat (seq 0 (Z.to_nat j)).
Definition columns_after (s : State) (j : Z) : list Z :=
  map Z.of_nat (seq (S (Z.to_nat j)) (Z.to_nat (width s - j))).

(** The number of [moveTo] calls in a list of path calls. *)
Fixpoint count_moveTo (cmds : list PathCmd) : nat :=
  match cmds with
  | [] => O
  | MoveTo _ _ :: rest => S (count_moveTo rest)
  | LineTo _ _ :: rest => count_moveTo rest
  end.

(** ** Sample pages for the curve

    A small evaluator that knows four function bodies and rejects every
    other text, as [new Function] rejects a text that does not parse. *)
Definition demo_run_body (body : string) (x : Q) : completion :=
  if String.eqb body "return ;" then Normal Undefined
  else if String.eqb body "return x*x;" then Normal (Num (x * x))
  else if String.eqb body "return x*x >= 1 ? x : NaN;"
       then Normal (if Qle_bool 1 (x * x) then Num x else NaN)
  else if String.eqb body "return x > 0 ? x : null.y;"
       then (if Qltb 0 x then Normal (Num x) else Throw)
  else Throw.

(** An 8 by 6 viewport at one pixel per unit: the columns are
    [x = -4, ..., 4]. *)
Definition small_page (expr : string) : State :=
  set_config (set_scale 1 default_config) (initial 8 6 expr).

(** Undefined exactly on the open interval (-1, 1). *)
Definition demo_gap : State := small_page "x*x >= 1 ? x : NaN".

(** Throws a [TypeError] wherever [x <= 0]. *)
Definition demo_throw : State := small_page "x > 0 ? x : null.y".

(** ** Event sequences *)

(** Mouse moves through a list of client positions. *)
Definition moves (path : list (Q * Q)) : list Event :=
  map (fun p => MouseMove (fst p) (snd p)) path.

(** Wheel events with the given [deltaY]s, all at one cursor position. *)
Definition wheels (deltas : list Q) (clientX clientY rectLeft rectTop : Q)
  : list Event :=
  map (fun d => Wheel d clientX clientY rectLeft rectTop) deltas.

(** The events the mouse produces without the left button: moves, and
    presses of another button. *)
Definition without_left_button (e : Event) : bool :=
  match e with
  | MouseMove _ _ => true
  | MouseDown button _ _ => negb (button =? 0)%Z
  | _ => false
  end.

(** ** Invariants of the handlers *)

(** The fields of [config] that only the drawing code reads. *)
Definition style_of (c : Config) : Q * string * string * string * Q :=
  (step c, axisColor c, gridColor c, lineColor c, lineWidth c).

(** [centerX] and [centerY] as [resize] leaves them. *)
Definition centered (s : State) : Prop :=
  centerX s = inject_Z (width s) / 2 /\ centerY s = inject_Z (height s) / 2.

(** ** Shape of a path *)

(** A path in which every [lineTo] continues from the column just before
    its own and every [moveTo] but the first comes after at least one
    skipped column; [prev] is the column of the call before, if any. *)
Fixpoint well_joined (prev : option Z) (cmds : list PathCmd) : bool :=
  match cmds with
  | [] => true
  | c :: rest =>
      match c, prev with
      | MoveTo _ _, None => true
      | MoveTo x _, Some p => (p + 1 <? x)%Z
      | LineTo x _, Some p => (x =? p + 1)%Z
      | LineTo _ _, None => false
      end
      && well_joined (Some (cmd_x c)) rest
  end.

(** ** The calls of drawGrid on the 2D context (lines 182-278)

    The calls that build paths and draw text are kept, in order, with their
    arguments.  The assignments of drawing styles ([lineWidth], [font],
    [strokeStyle], [fillStyle], [textAlign], [textBaseline]) are left out:
    they move nothing. *)

(** The text of a [fillText]: [val.toString()] for a tick, kept as the
    number it prints, or a literal. *)
Inductive Text : Type :=
| NumberText (val : Q)
| Literal (text : string).

Inductive CanvasCall : Type :=
| clearRect (x y w h : Q)
| beginPath
| moveTo (x y : Q)
| lineTo (x y : Q)
| fillText (text : Text) (x y : Q)
| stroke.

(** [parseFloat(x.toPrecision(10))] in exact arithmetic.  [toPrecision]
    takes the sign off, then the integers [n] and [e] with
    [10^9 <= n < 10^10] for which [n * 10^(e-9)] is nearest to [|x|], the
    larger one at a tie; zero prints as zero.  With [e] the decade of [|x|]
    that [n] is [|x| / 10^(e-9)] rounded half up; when it rounds up to
    [10^10] the same value is [10^9 * 10^(e-8)]. *)
Definition toPrecision10 (x : Q) : Q :=
  if Qeq_bool x 0 then 0
  else
    let e := floor_log10 (Qabs x) in
    let n := Qfloor (Qabs x / 10 ^ (e - 9) + (1 # 2)) in
    let v := inject_Z n * 10 ^ (e - 9) in
    if Qltb x 0 then - v else v.

(** The body of the first loop (lines 217-229), for the loop value [x]. *)
Definition x_tick_calls (s : State) (x : Q) : list CanvasCall :=
  let val := toPrecision10 x in
  let screenX := centerX s + (val + offsetX (config s)) * scale (config s) in
  [moveTo screenX 0; lineTo screenX (inject_Z (height s))]
  ++ (if Qgtb (Qabs val) 1e-10 then
        let labelY := centerY s + offsetY (config s) * scale (config s) + 8 in
        let labelY := Qmin (Qmax labelY 5) (inject_Z (height s) - 20) in
        [fillText (NumberText val) screenX labelY]
      else []).

(** The body of the second loop (lines 237-247), for the loop value [y]. *)
Definition y_tick_calls (s : State) (y : Q) : list CanvasCall :=
  let val := toPrecision10 y in
  let screenY := centerY s - (val - offsetY (config s)) * scale (config s) in
  [moveTo 0 screenY; lineTo (inject_Z (width s)) screenY]
  ++ (if Qgtb (Qabs val) 1e-10 then
        let labelX := centerX s + offsetX (config s) * scale (config s) - 8 in
        let labelX := Qmin (Qmax labelX 30) (inject_Z (width s) - 5) in
        [fillText (NumberText val) labelX screenY]
      else []).

Definition pxZeroY (s : State) : Q :=
  centerY s + offsetY (config s) * scale (config s).

Definition pxZeroX (s : State) : Q :=
  centerX s + offsetX (config s) * scale (config s).

(** The two axes (lines 256-268). *)
Definition axis_calls (s : State) : list CanvasCall :=
  (if Qle_bool (-10) (pxZeroY s)
      && Qle_bool (pxZeroY s) (inject_Z (height s) + 10)
   then [moveTo 0 (pxZeroY s); lineTo (inject_Z (width s)) (pxZeroY s)]
   else [])
  ++ (if Qle_bool (-10) (pxZeroX s)
         && Qle_bool (pxZeroX s) (inject_Z (width s) + 10)
      then [moveTo (pxZeroX s) 0; lineTo (pxZeroX s) (inject_Z (height s))]
      else []).

(** The label of the origin (lines 272-277). *)
Definition origin_calls (s : State) : list CanvasCall :=
  if Qgtb (pxZeroX s) 0 && Qltb (pxZeroX s) (inject_Z (width s))
     && Qgtb (pxZeroY s) 0 && Qltb (pxZeroY s) (inject_Z (height s))
  then [fillText (Literal "0") (pxZeroX s - 5) (pxZeroY s + 5)]
  else [].

(** drawGrid: [None] when a tick loop did not leave within [fuel] turns. *)
Definition drawGrid (fuel : nat) (s : State) : option (list CanvasCall) :=
  match xTicks fuel s, yTicks fuel s with
  | Some xs, Some ys =>
      Some
        ([clearRect 0 0 (inject_Z (width s)) (inject_Z (height s)); beginPath]
         ++ flat_map (x_tick_calls s) xs
         ++ flat_map (y_tick_calls s) ys
         ++ [stroke; beginPath]
         ++ axis_calls s
         ++ [stroke]
         ++ origin_calls s)
  | _, _ => None
  end.

(** The labels among a list of calls. *)
Definition labels (calls : list CanvasCall) : list (Text * Q * Q) :=
  flat_map (fun c => match c with
                     | fillText t x y => [(t, x, y)]
                     | _ => []
                     end) calls.

(** * The same code on binary64

    Everything above reads JavaScript numbers as exact rationals.  The
    program runs on IEEE-754 doubles, which round after every operation;
    the module below transcribes the handlers and the x loop of drawGrid
    once more, on the kernel's binary64 floats (round to nearest, ties to
    even, as in JavaScript), to show where the two readings part.  It
    holds the transform, the viewport and the drag state; the style fields
    of [config] and the text of the input take no part in the arithmetic
    and are left out. *)

Module B64.

Import PrimFloat.
#[local] Set Warnings "-inexact-float".
#[local] Open Scope float_scope.

Record State : Type := mkState {
  scale : float;       (* config.scale *)
  offsetX : float;     (* config.offsetX *)
  offsetY : float;     (* config.offsetY *)
  width : float;
  height : float;
  centerX : float;
  centerY : float;
  isDragging : bool;
  lastMouseX : float;
  lastMouseY : float
}.

Definition screenX (s : State) (x : float) : float :=
  centerX s + (x + offsetX s) * scale s.

Definition screenY (s : State) (y : float) : float :=
  centerY s - (y - offsetY s) * scale s.

Definition mathX (s : State) (px : float) : float :=
  (px - centerX s) / scale s - offsetX s.

Definition mathY (s : State) (py : float) : float :=
  (- (py - centerY s)) / scale s + offsetY s.

(** [resize] (lines 22-30). *)
Definition resize (clientWidth clientHeight : float) (s : State) : State :=
  {| scale := scale s; offsetX := offsetX s; offsetY := offsetY s;
     width := clientWidth; height := clientHeight;
     centerX := clientWidth / 2; centerY := clientHeight / 2;
     isDragging := isDragging s;
     lastMouseX := lastMouseX s; lastMouseY := lastMouseY s |}.

(** Click on [resetView] (lines 33-38). *)
Definition onReset (s : State) : State :=
  {| scale := 40; offsetX := 0; offsetY := 0;
     width := width s; height := height s;
     centerX := centerX s; centerY := centerY s;
     isDragging := isDragging s;
     lastMouseX := lastMouseX s; lastMouseY := lastMouseY s |}.

(** [mousedown] (lines 77-84). *)
Definition onMouseDown (button : Z) (clientX clientY : float) (s : State)
  : State :=
  if (button =? 0)%Z then
    {| scale := scale s; offsetX := offsetX s; offsetY := offsetY s;
       width := width s; height := height s;
       centerX := centerX s; centerY := centerY s;
       isDragging := true;
       lastMouseX := clientX; lastMouseY := clientY |}
  else s.

(** [mouseup] (lines 86-89). *)
Definition onMouseUp (s : State) : State :=
  {| scale := scale s; offsetX := offsetX s; offsetY := offsetY s;
     width := width s; height := height s;
     centerX := centerX s; centerY := centerY s;
     isDragging := false;
     lastMouseX := lastMouseX s; lastMouseY := lastMouseY s |}.

(** [mousemove] (lines 91-120). *)
Definition onMouseMove (clientX clientY : float) (s : State) : State :=
  if isDragging s then
    let dx := clientX - lastMouseX s in
    let dy := clientY - lastMouseY s in
    {| scale := scale s;
       offsetX := offsetX s + dx / scale s;
       offsetY := offsetY s + dy / scale s;
       width := width s; height := height s;
       centerX := centerX s; centerY := centerY s;
       isDragging := isDragging s;
       lastMouseX := clientX; lastMouseY := clientY |}
  else s.

(** [wheel] (lines 122-162). *)
Definition onWheel (deltaY clientX clientY rectLeft rectTop : float)
           (s : State) : State :=
  let zoomIntensity := 0.1 in
  let direction := if deltaY <? 0 then 1 else -1 in
  let factor := 1 + zoomIntensity * direction in
  let mouseX := clientX - rectLeft in
  let mouseY := clientY - rectTop in
  let mathX := (mouseX - centerX s) / scale s - offsetX s in
  let mathY := (- (mouseY - centerY s)) / scale s + offsetY s in
  let newScale := scale s * factor in
  let newScale := if newScale <? 0.001 then 0.001 else newScale in
  let newScale := if 100000 <? newScale then 100000 else newScale in
  let newOffsetX := (mouseX - centerX s) / newScale - mathX in
  let newOffsetY := mathY - (centerY s - mouseY) / newScale in
  {| scale := newScale; offsetX := newOffsetX; offsetY := newOffsetY;
     width := width s; height := height s;
     centerX := centerX s; centerY := centerY s;
     isDragging := isDragging s;
     lastMouseX := lastMouseX s; lastMouseY := lastMouseY s |}.

Inductive Event : Type :=
| Resize (clientWidth clientHeight : float)
| ResetClick
| MouseDown (button : Z) (clientX clientY : float)
| MouseUp
| MouseMove (clientX clientY : float)
| Wheel (deltaY clientX clientY rectLeft rectTop : float).

Definition handle (s : State) (e : Event) : State :=
  match e with
  | Resize w h => resize w h s
  | ResetClick => onReset s
  | MouseDown b x y => onMouseDown b x y s
  | MouseUp => onMouseUp s
  | MouseMove x y => onMouseMove x y s
  | Wheel d x y l t => onWheel d x y l t s
  end.

Definition run (s : State) (es : list Event) : State := fold_left handle es s.

(** The state after the script has run in a page whose canvas parent is
    [w] by [h]. *)
Definition initial (w h : float) : State :=
  resize w h
    {| scale := 40; offsetX := 0; offsetY := 0;
       width := 0; height := 0; centerX := 0; centerY := 0;
       isDragging := false; lastMouseX := 0; lastMouseY := 0 |}.

(** [Math.floor]: a double of magnitude [2^52] or more is an integer
    already (and an infinity or [NaN] is returned as it is); below that,
    adding and taking away [2^52] rounds to the nearest integer, which is
    one too many when it exceeds [x].  The sign of a zero result is not
    tracked. *)
Definition floor (x : float) : float :=
  if abs x <? 0x1p52 then
    let r := if 0 <=? x then (x + 0x1p52) - 0x1p52
             else (x - 0x1p52) + 0x1p52 in
    if x <? r then r - 1 else r
  else x.

(** [Math.ceil]. *)
Definition ceil (x : float) : float := - floor (- x).

(** The x range and the bounds of the first loop (lines 191-198); [step]
    is what [calculateStep()] returned. *)
Definition startX (s : State) : float := (- centerX s) / scale s - offsetX s.
Definition endX (s : State) : float :=
  (width s - centerX s) / scale s - offsetX s.
Definition minX (step : float) (s : State) : float :=
  floor (startX s / step) * step.
Definition maxX (step : float) (s : State) : float :=
  ceil (endX s / step) * step.

(** [for (let x = lo; x <= hi; x += step)]: the values of the loop
    variable, [None] when [fuel] turns did not reach the exit. *)
Fixpoint for_ticks (fuel : nat) (x hi step : float) : option (list float) :=
  match fuel with
  | O => None
  | S f =>
      if x <=? hi
      then option_map (cons x) (for_ticks f (x + step) hi step)
      else Some []
  end.

Definition xTicks (fuel : nat) (step : float) (s : State)
  : option (list float) :=
  for_ticks fuel (minX step s) (maxX step s) step.

(** [Math.min] and [Math.max] on two numbers neither of which is [NaN]. *)
Definition min (a b : float) : float := if a <? b then a else b.
Definition max (a b : float) : float := if a <? b then b else a.

(** The y range and the bounds of the second loop (lines 193-205). *)
Definition startY (s : State) : float := (- centerY s) / scale s + offsetY s.
Definition endY (s : State) : float :=
  (height s - centerY s) / scale s + offsetY s.
Definition minY (step : float) (s : State) : float :=
  floor (min (startY s) (endY s) / step) * step.
Definition maxY (step : float) (s : State) : float :=
  ceil (max (startY s) (endY s) / step) * step.

Definition yTicks (fuel : nat) (step : float) (s : State)
  : option (list float) :=
  for_ticks fuel (minY step s) (maxY step s) step.

(** *** Sample states *)

(** The default 800 by 600 view. *)
Definition demo : State := initial 800 600.

(** The cursor at (700, 100), one wheel notch in. *)
Definition demo_zoomed : State := onWheel (-1) 700 100 0 0 demo.

(** Two wheel notches out at the centre (scale 32.4), then the left
    button pressed at (100, 100). *)
Definition demo_out : State :=
  run demo [Wheel 1 400 300 0 0; Wheel 1 400 300 0 0; MouseDown 0 100 100].

(** [demo_out] dragged 17 pixels to the right. *)
Definition demo_out_dragged : State := onMouseMove 117 100 demo_out.


(** The default view dragged [2^60] pixels down in one synthetic mouse
    move: [offsetY] is [2^60 / 40]. *)
Definition demo_far_down : State :=
  run demo [MouseDown 0 0 0; MouseMove 0 0x1p60].

(** A view at the lower limit of the scale, with offsets. *)
Definition demo_min : State :=
  {| scale := 0.001; offsetX := 0.1; offsetY := 0.2;
     width := 800; height := 600; centerX := 400; centerY := 300;
     isDragging := false; lastMouseX := 0; lastMouseY := 0 |}.

(** An 800 by 600 view at scale 400 (step 0.2) with both offsets 2. *)
Definition demo_400 : State :=
  {| scale := 400; offsetX := 2; offsetY := 2;
     width := 800; height := 600; centerX := 400; centerY := 300;
     isDragging := false; lastMouseX := 0; lastMouseY := 0 |}.

(** [demo_min] after one wheel notch out with the cursor at (523, 77) in
    a canvas whose corner is at (10, 20). *)
Definition demo_min_wheeled : State := onWheel 1 523 77 10 20 demo_min.

(** [demo_zoomed] (scale 44) after one notch in and one notch out at the
    centre. *)
Definition demo_in_out : State :=
  run demo_zoomed [Wheel (-1) 400 300 0 0; Wheel 1 400 300 0 0].

(** A drag in the default view taken in three moves of one pixel, and in
    one move of three. *)
Definition demo_three_moves : State :=
  run demo [MouseDown 0 100 100;
            MouseMove 101 100; MouseMove 102 100; MouseMove 103 100].
Definition demo_one_move : State :=
  run demo [MouseDown 0 100 100; MouseMove 103 100].

(** The scale is neither below 0.001 nor above 100000. *)
Definition scale_in_range (s : State) : Prop :=
  (scale s <? 0.001) = false /\ (100000 <? scale s) = false.

(** The numbers the statements below compare. *)
Definition cursor_x : float := 700.
Definition cursor_y : float := 100.
Definition probe_x : float := 0.3.
Definition drag_dx : float := 17.
Definition step_at_40 : float := 2.
Definition step_at_400 : float := 0.2.
Definition ninety_nine_percent : float := 0.99.

End B64.

(** * The evaluator's other values

    [jsval] holds the numbers and [undefined], which is what the evaluator
    of the spec returns.  An expression can evaluate to any JavaScript
    value; line 304 hands it to [isNaN] and [isFinite], which convert their
    argument with [ToNumber] first.  The module below runs drawCurve on
    such values, each taken by what [ToNumber] does with it. *)

Module Js.

Inductive value : Type :=
| Primitive (v : jsval)      (* a number or [undefined] *)
| Convertible (n : jsval)    (* a string, a boolean, [null] or an object that
                                [ToNumber] turns into the number [n] *)
| Unconvertible.             (* a BigInt or a Symbol (or an object whose
                                conversion throws): [ToNumber] throws *)

(** [ToNumber]; [None] is the [TypeError]. *)
Definition ToNumber (v : value) : option jsval :=
  match v with
  | Primitive v => Some v
  | Convertible n => Some n
  | Unconvertible => None
  end.

(** The globals [isNaN] and [isFinite] of line 304. *)
Definition isNaN (v : value) : option bool :=
  option_map isNaN (ToNumber v).
Definition isFinite (v : value) : option bool :=
  option_map isFinite (ToNumber v).

(** How running the function built from an expression ends. *)
Inductive result : Type :=
| Returns (v : value)
| Throws.

(** How drawCurve ends: it reaches [ctx.stroke()], or a [TypeError] leaves
    it before; [calls] are the path calls issued until then. *)
Inductive outcome : Type :=
| Finished (calls : list PathCmd)
| TypeError (calls : list PathCmd).

Definition issue (c : PathCmd) (o : outcome) : outcome :=
  match o with
  | Finished calls => Finished (c :: calls)
  | TypeError calls => TypeError (c :: calls)
  end.

Section Engine.

Variable run_script : string -> Q -> result.

(** evaluateFunction (lines 52-70). *)
Definition evaluateFunction (expression : string) (x : Q) : result :=
  match run_script (function_body expression) x with
  | Returns v => Returns v
  | Throws => Returns (Primitive NaN)
  end.

(** The value of [y] after the [try]/[catch] of lines 297-302. *)
Definition sample (expression : string) (x : Q) : value :=
  match evaluateFunction expression x with
  | Returns v => v
  | Throws => Primitive NaN
  end.

(** The loop of drawCurve (lines 293-327). *)
Fixpoint curve_loop (s : State) (expression : string)
         (cols : list Z) (firstPoint : bool) : outcome :=
  match cols with
  | [] => Finished []
  | xPixel :: rest =>
      let x :=
        (inject_Z xPixel - centerX s) / scale (config s)
        - offsetX (config s) in
      let y := sample expression x in
      match isNaN y with
      | None => TypeError []
      | Some true => curve_loop s expression rest true
      | Some false =>
          match isFinite y with
          | None => TypeError []
          | Some false => curve_loop s expression rest true
          | Some true =>
              match ToNumber y with
              | Some (Num y) =>
                  let yPixel :=
                    centerY s - (y - offsetY (config s)) * scale (config s) in
                  issue (if firstPoint then MoveTo xPixel yPixel
                         else LineTo xPixel yPixel)
                        (curve_loop s expression rest false)
              | _ => curve_loop s expression rest true (* not reached *)
              end
          end
      end
  end.

Definition drawCurve (s : State) : outcome :=
  let expression := inputValue s in
  if String.eqb expression "" then Finished []
  else curve_loop s expression (columns s) true.

End Engine.

(** An evaluator of numbers and [undefined], as an evaluator of values. *)
Definition lift (run_body : string -> Q -> completion)
           (body : string) (x : Q) : result :=
  match run_body body x with
  | Normal v => Returns (Primitive v)
  | Throw => Throws
  end.

End Js.

(** [demo_run_body] with one more body: [1n], a BigInt literal. *)
Definition demo_run_script (body : string) (x : Q) : Js.result :=
  if String.eqb body "return 1n;" then Js.Returns Js.Unconvertible
  else Js.lift demo_run_body body x.

(** A page at the lower limit of the scale, with offsets. *)
Definition demo_min : State :=
  set_config
    (set_offsetY 0.2 (set_offsetX 0.1 (set_scale 0.001 default_config)))
    demo.

(** The 800 by 600 view at scale 400 (step 0.2) with both offsets 2. *)
Definition demo_400 : State :=
  set_config
    (set_offsetY 2 (set_offsetX 2 (set_scale 400 default_config)))
    demo.

(** * Properties *)

(** ** The boolean comparisons *)

Lemma Qltb_lt (a b : Q) : Qltb a b = true <-> a < b.
Proof.
  unfold Qltb. rewrite negb_true_iff, <- not_true_iff_false, Qle_bool_iff.
  split; [apply Qnot_le_lt | apply Qlt_not_le].
Qed.

Lemma Qltb_ge (a b : Q) : Qltb a b = false <-> b <= a.
Proof.
  unfold Qltb. rewrite negb_false_iff. apply Qle_bool_iff.
Qed.

Lemma Qgtb_gt (a b : Q) : Qgtb a b = true <-> b < a.
Proof. apply Qltb_lt. Qed.

Lemma Qgtb_le (a b : Q) : Qgtb a b = false <-> a <= b.
Proof. apply Qltb_ge. Qed.

(** Case analysis on a comparison of the source, with the order fact in
    the context. *)
Ltac case_cmp :=
  match goal with
  | |- context [Qgtb ?a ?b] =>
      let H := fresh "Hcmp" in
      destruct (Qgtb a b) eqn:H;
      [apply Qgtb_gt in H | apply Qgtb_le in H]
  | |- context [Qltb ?a ?b] =>
      let H := fresh "Hcmp" in
      destruct (Qltb a b) eqn:H;
      [apply Qltb_lt in H | apply Qltb_ge in H]
  end.

(** ** The view transform *)

Lemma scale_in_range_pos (s : State) : scale_in_range s -> 0 < scale (config s).
Proof. unfold scale_in_range. intros [H _]. lra. Qed.

(** The clamp of the wheel handler, whatever the state before. *)
Lemma onWheel_scale_in_range (d x y l t : Q) (s : State) :
  scale_in_range (onWheel d x y l t s).
Proof.
  unfold scale_in_range, onWheel; cbn [config set_config scale set_offsetX
    set_offsetY set_scale].
  repeat case_cmp; lra.
Qed.

(** The new scale is the old one times 1.1 (wheel up) or 0.9, clamped. *)
Lemma onWheel_scale (d x y l t : Q) (s : State) :
  let factor := if Qltb d 0 then 1.1 else 0.9 in
  scale (config (onWheel d x y l t s))
  == Qmin 100000 (Qmax 0.001 (scale (config s) * factor)).
Proof.
  unfold onWheel; cbn [config set_config scale set_offsetX set_offsetY
    set_scale].
  set (sc := scale (config s)).
  assert (E : sc * (1 + 0.1 * (if Qltb d 0 then 1 else -1))
              == sc * (if Qltb d 0 then 1.1 else 0.9))
    by (destruct (Qltb d 0); ring).
  set (v := sc * (1 + _)) in *.
  set (v' := sc * (if Qltb d 0 then _ else _)) in *.
  destruct (Q.max_spec 0.001 v') as [[H1 E1] | [H1 E1]];
    destruct (Q.min_spec 100000 (Qmax 0.001 v')) as [[H2 E2] | [H2 E2]];
    rewrite E2, ?E1; rewrite E1 in H2;
    (destruct (Qltb v 0.001) eqn:A;
     [apply Qltb_lt in A | apply Qltb_ge in A]);
    case_cmp; lra.
Qed.

Lemma handle_scale_in_range (s : State) (e : Event) :
  scale_in_range s -> scale_in_range (handle s e).
Proof.
  intros Hs. destruct e; cbn [handle].
  - exact Hs.
  - unfold scale_in_range; cbn. lra.
  - exact Hs.
  - unfold onMouseDown. destruct (button =? 0)%Z; exact Hs.
  - exact Hs.
  - unfold onMouseMove. destruct (isDragging s); exact Hs.
  - apply onWheel_scale_in_range.
Qed.

Lemma run_scale_in_range (es : list Event) :
  forall s : State, scale_in_range s -> scale_in_range (run s es).
Proof.
  induction es as [|e es IH]; intros s Hs; cbn [run fold_left].
  - exact Hs.
  - apply IH, handle_scale_in_range, Hs.
Qed.

(** C2.  Round trip of the coordinate formulas: for a positive scale and
    any offsets, a math point sent to the screen and back is the point
    itself, on both axes (in exact arithmetic). *)
Theorem screen_math_round_trip (s : State) (x y : Q) :
  0 < scale (config s) ->
  mathX s (screenX s x) == x /\ mathY s (screenY s y) == y.
Proof.
  intros Hpos. unfold mathX, mathY, screenX, screenY.
  split; field; lra.
Qed.

(** C1, amended.  Anchored zoom in exact arithmetic: with the scale in its
    range before the wheel event, the math point that was under the cursor
    before the event is drawn at the cursor after it, for either direction
    of the wheel and whether or not the new scale was clamped.  On binary64
    the equality is not exact ([wheel_anchor_moves_on_binary64]). *)
Theorem wheel_anchor_fixed (deltaY clientX clientY rectLeft rectTop : Q)
    (s : State) :
  scale_in_range s ->
  let mouseX := clientX - rectLeft in
  let mouseY := clientY - rectTop in
  let s' := onWheel deltaY clientX clientY rectLeft rectTop s in
  screenX s' (mathX s mouseX) == mouseX /\
  screenY s' (mathY s mouseY) == mouseY.
Proof.
  intros Hs mouseX mouseY s'.
  pose proof (scale_in_range_pos s Hs) as Hpos.
  assert (Hpos' : 0 < scale (config s'))
    by apply scale_in_range_pos, onWheel_scale_in_range.
  revert Hpos'. subst s'. unfold screenX, screenY, mathX, mathY, onWheel.
  cbn [config set_config scale offsetX offsetY set_offsetX set_offsetY
       set_scale centerX centerY].
  fold mouseX mouseY.
  set (ns := if Qgtb _ 100000 then _ else _).
  intros Hns. split; field; split; lra.
Qed.

Lemma wheel_anchor_fixed_witness :
  scale_in_range demo /\
  screenX (onWheel (-1) 700 100 0 0 demo) (mathX demo (700 - 0)) == 700 - 0 /\
  screenY (onWheel (-1) 700 100 0 0 demo) (mathY demo (100 - 0)) == 100 - 0.
Proof.
  assert (H : scale_in_range demo) by (split; vm_compute; discriminate).
  split; [exact H | exact (wheel_anchor_fixed (-1) 700 100 0 0 demo H)].
Defined.

(** C1 as the claim has it, exactly and on the program's own numbers,
    fails: in the default 800 by 600 view with the cursor at (700, 100),
    one wheel notch in (scale 40 to 44, no clamp) draws the math point that
    was under the cursor at pixel row 99.999999999999972 (lines 136-159 on
    binary64). *)
Lemma wheel_anchor_moves_on_binary64 :
  PrimFloat.eqb
    (B64.screenY B64.demo_zoomed (B64.mathY B64.demo B64.cursor_y))
    B64.cursor_y
  = false.
Proof. vm_compute. reflexivity. Qed.

Lemma screen_math_round_trip_witness :
  0 < scale (config demo) /\
  mathX demo (screenX demo (7 # 3)) == 7 # 3 /\
  mathY demo (screenY demo (-5)) == -5.
Proof.
  assert (H : 0 < scale (config demo)) by reflexivity.
  split; [exact H | exact (screen_math_round_trip demo (7 # 3) (-5) H)].
Defined.

(** C8, amended.  Pan in exact arithmetic: while dragging, with a positive
    scale, a mouse move draws every math point [(x, y)] exactly [(dx, dy)]
    pixels from where it was, [dx] and [dy] being the pixel delta since the
    last mouse position.  On binary64 the equality is not exact
    ([pan_delta_rounds_on_binary64]). *)
Theorem pan_moves_by_delta (clientX clientY : Q) (s : State) (x y : Q) :
  isDragging s = true ->
  0 < scale (config s) ->
  let dx := clientX - lastMouseX s in
  let dy := clientY - lastMouseY s in
  let s' := onMouseMove clientX clientY s in
  screenX s' x == screenX s x + dx /\ screenY s' y == screenY s y + dy.
Proof.
  intros Hdrag Hpos dx dy s'. subst s' dx dy.
  unfold onMouseMove. rewrite Hdrag.
  unfold screenX, screenY.
  cbn [config set_config set_drag scale offsetX offsetY set_offsetX
       set_offsetY centerX centerY].
  split; field; lra.
Qed.

Lemma pan_moves_by_delta_witness :
  isDragging demo_drag = true /\
  0 < scale (config demo_drag) /\
  screenX (onMouseMove 130 85 demo_drag) 2
    == screenX demo_drag 2 + (130 - lastMouseX demo_drag) /\
  screenY (onMouseMove 130 85 demo_drag) 3
    == screenY demo_drag 3 + (85 - lastMouseY demo_drag).
Proof.
  assert (Hd : isDragging demo_drag = true) by reflexivity.
  assert (Hp : 0 < scale (config demo_drag)) by reflexivity.
  split; [exact Hd | split; [exact Hp |]].
  exact (pan_moves_by_delta 130 85 demo_drag 2 3 Hd Hp).
Defined.

(** C8 as the claim has it, exactly and on the program's own numbers,
    fails: two wheel notches out from the default view (scale 32.4), a
    drag of 17 pixels to the right moves the math point [x = 0.3] from
    pixel 409.72000000000003 to pixel 426.71999999999997, which is not 17
    pixels further (lines 100 and 219 on binary64). *)
Lemma pan_delta_rounds_on_binary64 :
  B64.isDragging B64.demo_out = true /\
  PrimFloat.ltb PrimFloat.zero (B64.scale B64.demo_out) = true /\
  PrimFloat.eqb (PrimFloat.sub (B64.lastMouseX B64.demo_out_dragged)
                               (B64.lastMouseX B64.demo_out))
                B64.drag_dx = true /\
  PrimFloat.eqb
    (B64.screenX B64.demo_out_dragged B64.probe_x)
    (PrimFloat.add (B64.screenX B64.demo_out B64.probe_x) B64.drag_dx)
  = false.
Proof. vm_compute. repeat split. Qed.

(** C9.  Frame condition of the pan: a mouse move, dragging or not, leaves
    [scale] and every field of [config] other than [offsetX] and [offsetY]
    as it was; of the other globals it assigns only [lastMouseX] and
    [lastMouseY]. *)
Theorem pan_frame (clientX clientY : Q) (s : State) :
  let s' := onMouseMove clientX clientY s in
  let c := config s in
  let c' := config s' in
  (scale c' = scale c /\
   step c' = step c /\
   axisColor c' = axisColor c /\
   gridColor c' = gridColor c /\
   lineColor c' = lineColor c /\
   lineWidth c' = lineWidth c) /\
  (width s' = width s /\
   height s' = height s /\
   centerX s' = centerX s /\
   centerY s' = centerY s /\
   isDragging s' = isDragging s /\
   inputValue s' = inputValue s).
Proof.
  unfold onMouseMove. destruct (isDragging s) eqn:E; cbn;
    rewrite ?E; repeat split; reflexivity.
Qed.

(** C4.  Scale clamp: from the initial state (scale 40), whatever the
    viewport and the expression, after any sequence of events (mouse down,
    up and move, wheel, reset, resize, input) the scale lies in
    [0.001, 100000]. *)
Theorem scale_clamp_invariant (w h : Z) (expr : string) (es : list Event) :
  0.001 <= scale (config (run (initial w h expr) es)) <= 100000.
Proof.
  apply run_scale_in_range. split; vm_compute; discriminate.
Qed.

(** ** Powers of ten and [floor_log10] *)

Lemma pow10_pos (k : Z) : 0 < 10 ^ k.
Proof. apply Qpower_0_lt. reflexivity. Qed.

Lemma pow10_succ (k : Z) : 10 ^ (k + 1) == 10 * 10 ^ k.
Proof.
  rewrite Qpower_plus by discriminate. change (10 ^ 1) with 10. ring.
Qed.

Lemma pow10_pred (k : Z) : 10 * 10 ^ (k - 1) == 10 ^ k.
Proof.
  rewrite <- pow10_succ. replace (k - 1 + 1)%Z with k by lia. reflexivity.
Qed.

Lemma pow10_le (j k : Z) : (j <= k)%Z -> 10 ^ j <= 10 ^ k.
Proof. intros H. apply Qpower_le_compat_l; [exact H | discriminate]. Qed.

Lemma pow10_lt_inv (j k : Z) : 10 ^ j < 10 ^ k -> (j < k)%Z.
Proof.
  intros H. apply (Qpower_lt_compat_l_inv 10); [exact H | reflexivity].
Qed.

Lemma inject_Z_pos_ge1 (q : positive) : 1 <= inject_Z (Z.pos q).
Proof. unfold Qle; cbn. lia. Qed.

(** A positive integer is below ten to the power of its bit length. *)
Lemma pos_lt_pow10_size (p : positive) :
  inject_Z (Z.pos p) < 10 ^ Z.of_nat (Pos.size_nat p).
Proof.
  pose proof inject_Z_pos_ge1 as Hone.
  induction p as [p IH | p IH |]; cbn [Pos.size_nat].
  - rewrite Nat2Z.inj_succ, <- Z.add_1_r, pow10_succ.
    rewrite Pos2Z.inj_xI, inject_Z_plus, inject_Z_mult.
    specialize (Hone p). change (inject_Z 2) with 2. change (inject_Z 1) with 1.
    lra.
  - rewrite Nat2Z.inj_succ, <- Z.add_1_r, pow10_succ.
    rewrite Pos2Z.inj_xO, inject_Z_mult.
    specialize (Hone p). change (inject_Z 2) with 2. lra.
  - reflexivity.
Qed.

Lemma log10_up_spec (fuel : nat) :
  forall (k : Z) (u : Q),
    10 ^ k <= u ->
    let r := log10_up fuel k u in
    10 ^ r <= u /\ (u < 10 ^ (r + 1) \/ r = (k + Z.of_nat fuel)%Z).
Proof.
  induction fuel as [|fuel IH]; intros k u Hk; cbn [log10_up].
  - split; [exact Hk | right; lia].
  - destruct (Qle_bool (10 ^ (k + 1)) u) eqn:Hle.
    + apply Qle_bool_iff in Hle.
      destruct (IH (k + 1)%Z u Hle) as [H1 H2].
      split; [exact H1 |].
      destruct H2 as [H2 | H2]; [left; exact H2 | right; lia].
    + split; [exact Hk | left].
      apply Qnot_le_lt. intros H. apply Qle_bool_iff in H. congruence.
Qed.

Lemma log10_down_spec (fuel : nat) :
  forall (k : Z) (u : Q),
    u < 10 ^ (k + 1) ->
    let r := log10_down fuel k u in
    u < 10 ^ (r + 1) /\ (10 ^ r <= u \/ r = (k - Z.of_nat fuel)%Z).
Proof.
  induction fuel as [|fuel IH]; intros k u Hk; cbn [log10_down].
  - split; [exact Hk | right; lia].
  - destruct (Qle_bool (10 ^ k) u) eqn:Hle.
    + apply Qle_bool_iff in Hle. split; [exact Hk | left; exact Hle].
    + assert (Hlt : u < 10 ^ (k - 1 + 1)).
      { replace (k - 1 + 1)%Z with k by lia.
        apply Qnot_le_lt. intros H. apply Qle_bool_iff in H. congruence. }
      destruct (IH (k - 1)%Z u Hlt) as [H1 H2].
      split; [exact H1 |].
      destruct H2 as [H2 | H2]; [left; exact H2 | right; lia].
Qed.

(** [floor_log10 u] is the exponent of the decade of [u]. *)
Lemma floor_log10_spec (u : Q) :
  0 < u -> 10 ^ floor_log10 u <= u /\ u < 10 ^ (floor_log10 u + 1).
Proof.
  intros Hu. unfold floor_log10.
  destruct u as [n d].
  assert (Hn : (0 < n)%Z) by (unfold Qlt in Hu; cbn in Hu; lia).
  destruct n as [|n|n]; try lia. clear Hn.
  assert (Hnd : (Z.pos n # d) * inject_Z (Z.pos d) == inject_Z (Z.pos n)).
  { rewrite Qmake_Qdiv. field. discriminate. }
  pose proof (pos_lt_pow10_size n) as Bn.
  pose proof (pos_lt_pow10_size d) as Bd.
  pose proof (inject_Z_pos_ge1 d) as Hd1.
  pose proof (inject_Z_pos_ge1 n) as Hn1.
  destruct (Qle_bool 1 (Z.pos n # d)) eqn:H1.
  - apply Qle_bool_iff in H1. cbn [Qnum Z.to_pos].
    destruct (log10_up_spec (Pos.size_nat n) 0 (Z.pos n # d) H1) as [Ha Hb].
    split; [exact Ha |].
    destruct Hb as [Hb | Hb]; [exact Hb | exfalso].
    rewrite Hb in Ha. cbn [Z.add] in Ha.
    set (u := Z.pos n # d) in *. set (D := inject_Z (Z.pos d)) in *.
    nra.
  - assert (H1' : Z.pos n # d < 10 ^ (-1 + 1)).
    { apply Qnot_le_lt. intros H. change (10 ^ (-1 + 1)) with 1 in H.
      apply Qle_bool_iff in H. congruence. }
    cbn [Qden].
    destruct (log10_down_spec (Pos.size_nat d) (-1) (Z.pos n # d) H1')
      as [Ha Hb].
    split; [| exact Ha].
    destruct Hb as [Hb | Hb]; [exact Hb |].
    rewrite Hb.
    set (F := Z.of_nat (Pos.size_nat d)) in *.
    assert (HF : 10 ^ (-1 - F) * (10 * 10 ^ F) == 1).
    { rewrite <- pow10_succ, <- Qpower_plus by discriminate.
      replace (-1 - F + (F + 1))%Z with 0%Z by lia. reflexivity. }
    pose proof (pow10_pos (-1 - F)) as Hp.
    pose proof (pow10_pos F) as HpF.
    set (u := Z.pos n # d) in *. set (D := inject_Z (Z.pos d)) in *.
    set (a := 10 ^ (-1 - F)) in *. set (b := 10 ^ F) in *.
    apply Qnot_lt_le. intros Hlt.
    assert (u * D < a * D) by nra.
    assert (a * D < a * b) by nra.
    nra.
Qed.

Lemma floor_log10_unique (u : Q) (k : Z) :
  10 ^ k <= u -> u < 10 ^ (k + 1) -> floor_log10 u = k.
Proof.
  intros Hlo Hhi.
  assert (Hu : 0 < u) by (pose proof (pow10_pos k); lra).
  destruct (floor_log10_spec u Hu) as [Hlo' Hhi'].
  assert (floor_log10 u < k + 1)%Z by (apply pow10_lt_inv; lra).
  assert (k < floor_log10 u + 1)%Z by (apply pow10_lt_inv; lra).
  lia.
Qed.

(** [floor_log10] against the real logarithm. *)
Lemma ln10_pos : (0 < ln 10)%R.
Proof. rewrite <- ln_1. apply ln_increasing; Lra.lra. Qed.

Lemma Q2R_pow10 (k : Z) : Q2R (10 ^ k) = Rpower 10 (IZR k).
Proof.
  rewrite RMicromega.Q2RpowerRZ by (left; discriminate).
  replace (Q2R 10) with 10%R by (unfold Q2R; cbn; Lra.lra).
  apply powerRZ_Rpower. Lra.lra.
Qed.

Lemma floor_log10_real (u : Q) :
  0 < u -> floor_log10 u = Zfloor (log10 (Q2R u)).
Proof.
  intros Hu. symmetry. apply Zfloor_eq.
  destruct (floor_log10_spec u Hu) as [Hlo Hhi].
  set (k := floor_log10 u) in *.
  apply Qle_Rle in Hlo. apply Qlt_Rlt in Hhi. apply Qlt_Rlt in Hu.
  rewrite Q2R_pow10 in Hlo, Hhi. rewrite RMicromega.Q2R_0 in Hu.
  rewrite plus_IZR in Hhi.
  pose proof ln10_pos as H10.
  assert (Hk : forall y : R, ln (Rpower 10 y) = (y * ln 10)%R)
    by (intros y; apply ln_Rpower).
  assert (Hpos : forall y : R, (0 < Rpower 10 y)%R)
    by (intros y; unfold Rpower; apply exp_pos).
  assert (L1 : (IZR k * ln 10 <= ln (Q2R u))%R).
  { rewrite <- Hk. destruct Hlo as [Hlo | Hlo].
    - left. apply ln_increasing; [apply Hpos | exact Hlo].
    - rewrite Hlo. right. reflexivity. }
  assert (L2 : (ln (Q2R u) < (IZR k + 1) * ln 10)%R).
  { rewrite <- Hk. apply ln_increasing; [exact Hu | exact Hhi]. }
  unfold log10.
  assert (E : (ln (Q2R u) / ln 10 * ln 10 = ln (Q2R u))%R)
    by (field; Lra.lra).
  set (q := (ln (Q2R u) / ln 10)%R) in *.
  split; Lra.nra.
Qed.

(** ** The grid step *)

(** The four branches of [calculateStep], with [stepUnits] placed in its
    decade [10^k <= stepUnits < 10^(k+1)]. *)
Lemma calculateStep_cases (c : Config) :
  0 < scale c ->
  let u := 80 / scale c in
  let m := 10 ^ floor_log10 u in
  m <= u /\ u < 10 * m /\
  ((5 * m < u /\ calculateStep c = 10 * m) \/
   (2 * m < u /\ u <= 5 * m /\ calculateStep c = 5 * m) \/
   (m < u /\ u <= 2 * m /\ calculateStep c = 2 * m) \/
   (u <= m /\ calculateStep c = m)).
Proof.
  intros Hpos u m.
  assert (Hu : 0 < u).
  { unfold u. apply Qlt_shift_div_l; [exact Hpos | lra]. }
  destruct (floor_log10_spec u Hu) as [Hlo Hhi].
  rewrite pow10_succ in Hhi. fold m in Hlo, Hhi.
  assert (Hm : 0 < m) by apply pow10_pos.
  assert (Hr : u / m * m == u) by (field; lra).
  split; [exact Hlo | split; [exact Hhi |]].
  unfold calculateStep. fold u. fold m.
  set (r := u / m) in *.
  repeat case_cmp.
  - left. split; [nra | reflexivity].
  - right; left. repeat split; [nra | nra].
  - right; right; left. repeat split; [nra | nra].
  - right; right; right. split; [nra | reflexivity].
Qed.

Lemma calculateStep_pos (c : Config) : 0 < scale c -> 0 < calculateStep c.
Proof.
  intros Hpos.
  destruct (calculateStep_cases c Hpos) as (Hlo & Hhi & Hc).
  pose proof (pow10_pos (floor_log10 (80 / scale c))) as Hm.
  destruct Hc as [[_ ->] | [(_ & _ & ->) | [(_ & _ & ->) | [_ ->]]]]; lra.
Qed.

(** The step is the decade's power of ten at least and the next one at
    most, and it is not below [stepUnits]. *)
Lemma calculateStep_bounds (c : Config) :
  0 < scale c ->
  let u := 80 / scale c in
  let m := 10 ^ floor_log10 u in
  m <= calculateStep c /\ calculateStep c <= 10 * m /\ u <= calculateStep c.
Proof.
  intros Hpos u m.
  destruct (calculateStep_cases c Hpos) as (Hlo & Hhi & Hc).
  fold u in Hlo, Hhi, Hc. fold m in Hlo, Hhi, Hc.
  assert (Hm : 0 < m) by apply pow10_pos.
  destruct Hc as [[? ->] | [(? & ? & ->) | [(? & ? & ->) | [? ->]]]];
    repeat split; lra.
Qed.

(** The mantissa of [d * 10^k] for a digit [1 <= d < 10]. *)
Lemma mantissa_digit (v d : Q) (k : Z) :
  v == d * 10 ^ k -> 1 <= d -> d < 10 ->
  v / 10 ^ floor_log10 v == d.
Proof.
  intros Hv Hd1 Hd10.
  pose proof (pow10_pos k) as Hm.
  rewrite (floor_log10_unique v k).
  - rewrite Hv. field. lra.
  - rewrite Hv. nra.
  - rewrite Hv, pow10_succ. nra.
Qed.

(** C6.  Nice numbers: for a scale in [0.001, 100000] the mantissa
    [step / 10^floor(log10(step))] of the computed step is 1, 2, 5 or 10,
    and the step is 1, 2, 5 or 10 times a power of ten. *)
Theorem calculateStep_nice (c : Config) :
  0.001 <= scale c <= 100000 ->
  let st := calculateStep c in
  let mantissa := st / 10 ^ floor_log10 st in
  (mantissa == 1 \/ mantissa == 2 \/ mantissa == 5 \/ mantissa == 10) /\
  exists k : Z,
    st == 1 * 10 ^ k \/ st == 2 * 10 ^ k \/ st == 5 * 10 ^ k \/
    st == 10 * 10 ^ k.
Proof.
  intros [Hmin Hmax] st mantissa.
  assert (Hpos : 0 < scale c) by lra.
  destruct (calculateStep_cases c Hpos) as (_ & _ & Hc).
  set (k := floor_log10 (80 / scale c)) in *.
  subst mantissa st.
  destruct Hc as [[_ ->] | [(_ & _ & ->) | [(_ & _ & ->) | [_ ->]]]].
  - split; [left | exists k; do 3 right; reflexivity].
    apply (mantissa_digit _ 1 (k + 1)); [rewrite pow10_succ; ring | lra | lra].
  - split; [right; right; left | exists k; right; right; left; reflexivity].
    apply (mantissa_digit _ 5 k); [reflexivity | lra | lra].
  - split; [right; left | exists k; right; left; reflexivity].
    apply (mantissa_digit _ 2 k); [reflexivity | lra | lra].
  - split; [left | exists k; left; ring].
    apply (mantissa_digit _ 1 k); [ring | lra | lra].
Qed.

Lemma calculateStep_nice_witness :
  0.001 <= scale default_config <= 100000 /\
  let st := calculateStep default_config in
  let mantissa := st / 10 ^ floor_log10 st in
  (mantissa == 1 \/ mantissa == 2 \/ mantissa == 5 \/ mantissa == 10) /\
  exists k : Z,
    st == 1 * 10 ^ k \/ st == 2 * 10 ^ k \/ st == 5 * 10 ^ k \/
    st == 10 * 10 ^ k.
Proof.
  assert (H : 0.001 <= scale default_config <= 100000)
    by (split; vm_compute; discriminate).
  split; [exact H | exact (calculateStep_nice default_config H)].
Defined.

(** C7.  Monotonicity of the grid step: of two scales in [0.001, 100000],
    the smaller one gets a step at least as large as the larger one's. *)
Theorem calculateStep_monotone (c1 c2 : Config) :
  0.001 <= scale c1 <= 100000 ->
  0.001 <= scale c2 <= 100000 ->
  scale c2 < scale c1 ->
  calculateStep c1 <= calculateStep c2.
Proof.
  intros [Hmin1 Hmax1] [Hmin2 Hmax2] Hlt.
  assert (Hpos1 : 0 < scale c1) by lra.
  assert (Hpos2 : 0 < scale c2) by lra.
  assert (Hu : 80 / scale c1 <= 80 / scale c2).
  { apply Qle_shift_div_l; [exact Hpos2 |].
    assert (E : 80 / scale c1 * scale c2 == 80 * (scale c2 / scale c1))
      by (field; lra).
    rewrite E.
    assert (scale c2 / scale c1 <= 1)
      by (apply Qle_shift_div_r; [exact Hpos1 | lra]).
    lra. }
  destruct (calculateStep_cases c1 Hpos1) as (Hlo1 & Hhi1 & Hc1).
  destruct (calculateStep_cases c2 Hpos2) as (Hlo2 & Hhi2 & Hc2).
  destruct (calculateStep_bounds c1 Hpos1) as (_ & Hub1 & _).
  destruct (calculateStep_bounds c2 Hpos2) as (Hlb2 & _ & _).
  set (u1 := 80 / scale c1) in *. set (u2 := 80 / scale c2) in *.
  set (k1 := floor_log10 u1) in *. set (k2 := floor_log10 u2) in *.
  assert (Hk : (k1 <= k2)%Z).
  { assert (k1 < k2 + 1)%Z; [| lia].
    apply pow10_lt_inv. rewrite (pow10_succ k2). lra. }
  destruct (Z.eq_dec k1 k2) as [E | NE].
  - (* same decade: the thresholds are crossed in order *)
    rewrite E in *. clear E Hk.
    pose proof (pow10_pos k2) as Hm.
    destruct Hc1 as [[? ->] | [(? & ? & ->) | [(? & ? & ->) | [? ->]]]];
      destruct Hc2 as [[? ->] | [(? & ? & ->) | [(? & ? & ->) | [? ->]]]];
      lra.
  - (* a lower decade: at most its upper end *)
    assert (Hdec : 10 * 10 ^ k1 <= 10 ^ k2).
    { rewrite <- pow10_succ. apply pow10_le. lia. }
    lra.
Qed.

Lemma calculateStep_monotone_witness :
  0.001 <= scale default_config <= 100000 /\
  0.001 <= scale (set_scale 15 default_config) <= 100000 /\
  scale (set_scale 15 default_config) < scale default_config /\
  calculateStep default_config <= calculateStep (set_scale 15 default_config).
Proof.
  assert (H1 : 0.001 <= scale default_config <= 100000)
    by (split; vm_compute; discriminate).
  assert (H2 : 0.001 <= scale (set_scale 15 default_config) <= 100000)
    by (split; vm_compute; discriminate).
  assert (H3 : scale (set_scale 15 default_config) < scale default_config)
    by reflexivity.
  split; [exact H1 | split; [exact H2 | split; [exact H3 |]]].
  exact (calculateStep_monotone default_config (set_scale 15 default_config)
           H1 H2 H3).
Defined.

(** ** The tick loops *)




(** A binary64 loop whose variable no longer moves never leaves. *)
Lemma B64_for_ticks_stuck (x hi step : PrimFloat.float) :
  PrimFloat.add x step = x ->
  PrimFloat.leb x hi = true ->
  forall fuel : nat, B64.for_ticks fuel x hi step = None.
Proof.
  intros Hadd Hle fuel. induction fuel as [|fuel IH]; [reflexivity |].
  cbn [B64.for_ticks]. rewrite Hle, Hadd, IH. reflexivity.
Qed.



(** ** The curve *)

Lemma segments_nil (cmds : list PathCmd) : segments cmds = [] -> cmds = [].
Proof.
  destruct cmds as [|c rest]; [reflexivity |].
  cbn [segments]. destruct rest as [|[x y | x y] rest'].
  - discriminate.
  - discriminate.
  - destruct (segments (LineTo x y :: rest')); discriminate.
Qed.

(** The segments hold the points of the path calls, in order. *)
Lemma segments_concat (cmds : list PathCmd) :
  concat (segments cmds) = map cmd_point cmds.
Proof.
  induction cmds as [|c rest IH]; [reflexivity |].
  cbn [segments map]. destruct rest as [|[x y | x y] rest'].
  - reflexivity.
  - cbn [concat app]. rewrite IH. reflexivity.
  - destruct (segments (LineTo x y :: rest')) as [|seg segs] eqn:E.
    + apply segments_nil in E. discriminate.
    + cbn [concat app] in *. rewrite IH. reflexivity.
Qed.

(** One segment for the first call and one more for every later
    [moveTo]. *)
Lemma segments_length (rest : list PathCmd) :
  forall c : PathCmd,
    length (segments (c :: rest)) = S (count_moveTo rest).
Proof.
  induction rest as [|c' rest IH]; intros c; [reflexivity |].
  specialize (IH c').
  change (segments (c :: c' :: rest)) with
    (match c' with
     | LineTo _ _ =>
         match segments (c' :: rest) with
         | seg :: segs => (cmd_point c :: seg) :: segs
         | [] => [[cmd_point c]]
         end
     | MoveTo _ _ => [cmd_point c] :: segments (c' :: rest)
     end).
  destruct c' as [x y | x y]; cbn [count_moveTo].
  - cbn [length]. rewrite IH. reflexivity.
  - destruct (segments (LineTo x y :: rest)) as [|seg segs] eqn:E.
    + apply segments_nil in E. discriminate.
    + cbn [length] in *. exact IH.
Qed.

Lemma count_moveTo_app (l1 l2 : list PathCmd) :
  count_moveTo (l1 ++ l2) = (count_moveTo l1 + count_moveTo l2)%nat.
Proof.
  induction l1 as [|[x y | x y] l1 IH]; cbn; [reflexivity | |]; rewrite IH;
    reflexivity.
Qed.

(** A sample that passes the test of line 304 is a finite number. *)
Lemma breaks_false_Num (y : jsval) :
  breaks y = false -> exists q, y = Num q.
Proof. destruct y; cbn; try discriminate. intros _. eexists; reflexivity. Qed.

Lemma columns_split (s : State) (j : Z) :
  (0 <= j <= width s)%Z ->
  columns s = columns_before j ++ j :: columns_after s j.
Proof.
  intros Hj. unfold columns, columns_before, columns_after.
  replace (Z.to_nat (width s + 1))
    with (Z.to_nat j + S (Z.to_nat (width s - j)))%nat by lia.
  rewrite seq_app, map_app. cbn [seq map Nat.add].
  rewrite Z2Nat.id by lia. reflexivity.
Qed.

Lemma in_columns_before (i j : Z) :
  (0 <= i < j)%Z -> In i (columns_before j).
Proof.
  intros Hi. unfold columns_before. apply in_map_iff.
  exists (Z.to_nat i). split; [lia | apply in_seq; lia].
Qed.

Lemma in_columns_after (s : State) (j k : Z) :
  (0 <= j < k)%Z -> (k <= width s)%Z -> In k (columns_after s j).
Proof.
  intros Hj Hk. unfold columns_after. apply in_map_iff.
  exists (Z.to_nat k). split; [lia | apply in_seq; lia].
Qed.

Lemma columns_NoDup (s : State) : NoDup (columns s).
Proof.
  unfold columns. apply NoDup_map_NoDup_ForallPairs; [| apply seq_NoDup].
  intros x y _ _ H. lia.
Qed.

(** With a positive scale the math [x] grows with the pixel column. *)
Lemma column_x_lt_inv (s : State) (i j : Z) :
  0 < scale (config s) -> column_x s i < column_x s j -> (i < j)%Z.
Proof.
  intros Hpos Hlt. unfold column_x, mathX, Qdiv in Hlt.
  pose proof (Qinv_lt_0_compat _ Hpos) as Ht.
  set (t := / scale (config s)) in *.
  destruct (Z_lt_le_dec i j) as [H | H]; [exact H | exfalso].
  rewrite Zle_Qle in H. nra.
Qed.

Section Curve.

Variable run_body : string -> Q -> completion.

(** One turn of the loop at a column that is no point of the curve. *)
Lemma curve_loop_skip (s : State) (e : string) (xPixel : Z)
      (rest : list Z) (fp : bool) :
  breaks (sample run_body e (column_x s xPixel)) = true ->
  curve_loop run_body s e (xPixel :: rest) fp
  = curve_loop run_body s e rest true.
Proof.
  intros Hb. cbn [curve_loop].
  unfold column_x, mathX in Hb. rewrite Hb. reflexivity.
Qed.

(** One turn of the loop at a column with a finite sample. *)
Lemma curve_loop_point (s : State) (e : string) (xPixel : Z)
      (rest : list Z) (fp : bool) (y : Q) :
  sample run_body e (column_x s xPixel) = Num y ->
  curve_loop run_body s e (xPixel :: rest) fp =
  (if fp then MoveTo xPixel (screenY s y) else LineTo xPixel (screenY s y))
    :: curve_loop run_body s e rest false.
Proof.
  intros Hy. cbn [curve_loop].
  unfold column_x, mathX in Hy. rewrite Hy. reflexivity.
Qed.

(** The loop carries on after a column that is no point: the calls of
    the columns before it, then those of the columns after it, which
    open a new subpath. *)
Lemma curve_loop_break (s : State) (e : string) (xPixel : Z)
      (after : list Z) :
  breaks (sample run_body e (column_x s xPixel)) = true ->
  forall (before : list Z) (fp : bool),
    curve_loop run_body s e (before ++ xPixel :: after) fp =
    curve_loop run_body s e before fp ++ curve_loop run_body s e after true.
Proof.
  intros Hb. induction before as [|c before IH]; intros fp.
  - apply curve_loop_skip, Hb.
  - cbn [app].
    destruct (breaks (sample run_body e (column_x s c))) eqn:Hc.
    + rewrite !curve_loop_skip by exact Hc. apply IH.
    + destruct (breaks_false_Num _ Hc) as [y Hy].
      rewrite !(curve_loop_point _ _ _ _ _ y Hy).
      cbn [app]. rewrite IH. reflexivity.
Qed.

(** The columns that get a path call are those whose sample passes the
    test. *)
Lemma curve_loop_columns (s : State) (e : string) (cols : list Z) :
  forall fp : bool,
    map cmd_x (curve_loop run_body s e cols fp) =
    filter (fun xPixel => negb (breaks (sample run_body e (column_x s xPixel))))
           cols.
Proof.
  induction cols as [|c cols IH]; intros fp; [reflexivity |].
  cbn [filter].
  destruct (breaks (sample run_body e (column_x s c))) eqn:Hc; cbn [negb].
  - rewrite curve_loop_skip by exact Hc. apply IH.
  - destruct (breaks_false_Num _ Hc) as [y Hy].
    rewrite (curve_loop_point _ _ _ _ _ y Hy).
    cbn [map]. rewrite IH. destruct fp; reflexivity.
Qed.

(** After a break, or at the start, the first path call is a
    [moveTo]. *)
Lemma curve_loop_starts_with_moveTo (s : State) (e : string)
      (cols : list Z) (xPixel : Z) :
  In xPixel cols ->
  breaks (sample run_body e (column_x s xPixel)) = false ->
  exists x y rest, curve_loop run_body s e cols true = MoveTo x y :: rest.
Proof.
  induction cols as [|c cols IH]; intros Hin Hx; [destruct Hin |].
  destruct (breaks (sample run_body e (column_x s c))) eqn:Hc.
  - rewrite curve_loop_skip by exact Hc.
    apply IH; [| exact Hx].
    destruct Hin as [-> | Hin]; [congruence | exact Hin].
  - destruct (breaks_false_Num _ Hc) as [y Hy].
    rewrite (curve_loop_point _ _ _ _ _ y Hy).
    eexists _, _, _. reflexivity.
Qed.

(** Evaluation errors, for an evaluator that returns numbers or
    [undefined]: the evaluator call of any expression at any
    [x] ends with a value, never with an exception, and the value is [NaN]
    when compiling or running the expression threw.  In drawCurve such a
    column is a path break and nothing more: the path calls of the whole
    curve are those of the columns before it followed by those of the
    columns after it, which open a new subpath.  Whatever happens at the
    other columns, every column whose sample is a finite number gets its
    path call, and no other column does. *)
Theorem number_valued_evaluator_resilience (s : State) :
  (forall (expression : string) (x : Q),
      exists v,
        evaluateFunction run_body expression x = Normal v /\
        (run_body (function_body expression) x = Throw -> v = NaN)) /\
  (forall j : Z,
      (0 <= j <= width s)%Z ->
      inputValue s <> ""%string ->
      run_body (function_body (inputValue s)) (column_x s j) = Throw ->
      drawCurve run_body s =
      curve_loop run_body s (inputValue s) (columns_before j) true
      ++ curve_loop run_body s (inputValue s) (columns_after s j) true) /\
  (inputValue s <> ""%string ->
   map cmd_x (drawCurve run_body s) =
   filter (fun xPixel =>
             negb (breaks (sample run_body (inputValue s) (column_x s xPixel))))
          (columns s)).
Proof.
  split; [| split].
  - intros expression x. unfold evaluateFunction, try_catch.
    destruct (run_body (function_body expression) x) as [v |].
    + exists v. split; [reflexivity | discriminate].
    + exists NaN. split; reflexivity.
  - intros j Hj Hne Hthrow. unfold drawCurve.
    destruct (String.eqb_spec (inputValue s) ""%string) as [E | _];
      [contradiction |].
    rewrite (columns_split s j Hj).
    apply curve_loop_break.
    unfold sample, evaluateFunction, try_catch.
    rewrite Hthrow. reflexivity.
  - intros Hne. unfold drawCurve.
    destruct (String.eqb_spec (inputValue s) ""%string) as [E | _];
      [contradiction |].
    apply curve_loop_columns.
Qed.

(** C5.  Discontinuities: let the expression be undefined (its sample
    fails the test of line 304) exactly for [x] in the open interval
    [(a, b)].  If some pixel column of the viewport falls strictly inside
    [(a, b)], one column lies at or left of [a] and one at or right of
    [b], then the curve has at least two segments, no point of any
    segment has its [x] strictly inside [(a, b)], and no column occurs
    twice among the points, so the segments are disjoint.  The hypothesis
    on [run_body] is the JavaScript fact that a bare [return;] yields
    [undefined]. *)
Theorem discontinuity_splits_curve (s : State) (a b : Q) (i j k : Z) :
  (forall x, run_body "return ;"%string x = Normal Undefined) ->
  0 < scale (config s) ->
  (forall x,
      breaks (sample run_body (inputValue s) x) = true <-> a < x /\ x < b) ->
  (0 <= i)%Z -> (k <= width s)%Z ->
  column_x s i <= a ->
  a < column_x s j /\ column_x s j < b ->
  b <= column_x s k ->
  let segs := segments (drawCurve run_body s) in
  (2 <= length segs)%nat /\
  (forall seg xPixel yPixel,
      In seg segs -> In (xPixel, yPixel) seg ->
      ~ (a < column_x s xPixel /\ column_x s xPixel < b)) /\
  NoDup (map fst (concat segs)).
Proof.
  intros Hret Hpos Hgap Hi Hk Hxi Hxj Hxk segs.
  assert (Hij : (i < j)%Z) by (apply (column_x_lt_inv s); [exact Hpos | lra]).
  assert (Hjk : (j < k)%Z) by (apply (column_x_lt_inv s); [exact Hpos | lra]).
  assert (Bi : breaks (sample run_body (inputValue s) (column_x s i)) = false).
  { apply not_true_iff_false. rewrite Hgap. lra. }
  assert (Bk : breaks (sample run_body (inputValue s) (column_x s k)) = false).
  { apply not_true_iff_false. rewrite Hgap. lra. }
  assert (Bj : breaks (sample run_body (inputValue s) (column_x s j)) = true).
  { apply Hgap. exact Hxj. }
  assert (Hne : String.eqb (inputValue s) ""%string = false).
  { destruct (String.eqb_spec (inputValue s) ""%string) as [E | _];
      [| reflexivity].
    rewrite E in Bi.
    unfold sample, evaluateFunction in Bi.
    change (function_body "") with "return ;"%string in Bi.
    rewrite Hret in Bi. discriminate Bi. }
  assert (Hdraw : drawCurve run_body s
                  = curve_loop run_body s (inputValue s) (columns s) true).
  { unfold drawCurve. rewrite Hne. reflexivity. }
  assert (Hcols : map fst (concat segs)
                  = filter (fun xPixel =>
                              negb (breaks (sample run_body (inputValue s)
                                                   (column_x s xPixel))))
                           (columns s)).
  { unfold segs. rewrite segments_concat, map_map, Hdraw.
    rewrite <- curve_loop_columns with (fp := true).
    apply map_ext. intros [x y | x y]; reflexivity. }
  split; [| split].
  - unfold segs. rewrite Hdraw, (columns_split s j) by lia.
    rewrite (curve_loop_break s _ j _ Bj).
    destruct (curve_loop_starts_with_moveTo s (inputValue s)
                (columns_before j) i) as (x1 & y1 & r1 & E1);
      [apply in_columns_before; lia | exact Bi |].
    destruct (curve_loop_starts_with_moveTo s (inputValue s)
                (columns_after s j) k) as (x2 & y2 & r2 & E2);
      [apply in_columns_after; lia | exact Bk |].
    rewrite E1, E2. cbn [app].
    rewrite segments_length, count_moveTo_app. cbn [count_moveTo]. lia.
  - intros seg xPixel yPixel Hseg Hin Hab.
    assert (Hx : In xPixel (map fst (concat segs))).
    { apply in_map_iff. exists (xPixel, yPixel). split; [reflexivity |].
      apply in_concat. exists seg. split; assumption. }
    rewrite Hcols in Hx. apply filter_In in Hx. destruct Hx as [_ Hx].
    apply negb_true_iff in Hx.
    apply Hgap in Hab. congruence.
  - rewrite Hcols. apply NoDup_filter, columns_NoDup.
Qed.

End Curve.

Lemma number_valued_evaluator_resilience_witness :
  (0 <= 2 <= width demo_throw)%Z /\
  inputValue demo_throw <> ""%string /\
  demo_run_body (function_body (inputValue demo_throw))
                (column_x demo_throw 2) = Throw /\
  drawCurve demo_run_body demo_throw =
  curve_loop demo_run_body demo_throw (inputValue demo_throw)
             (columns_before 2) true
  ++ curve_loop demo_run_body demo_throw (inputValue demo_throw)
                (columns_after demo_throw 2) true.
Proof.
  assert (H1 : (0 <= 2 <= width demo_throw)%Z) by (cbn; lia).
  assert (H2 : inputValue demo_throw <> ""%string) by discriminate.
  assert (H3 : demo_run_body (function_body (inputValue demo_throw))
                             (column_x demo_throw 2) = Throw) by reflexivity.
  split; [exact H1 | split; [exact H2 | split; [exact H3 |]]].
  exact (proj1 (proj2 (number_valued_evaluator_resilience
                         demo_run_body demo_throw))
               2%Z H1 H2 H3).
Defined.

(** ** Values that are not numbers

    On an evaluator that returns numbers or [undefined] the engine model
    [Js.drawCurve] reaches [ctx.stroke()] and issues the path calls of
    [drawCurve]. *)
Lemma Js_curve_loop_lift (run_body : string -> Q -> completion)
      (s : State) (expression : string) (cols : list Z) :
  forall firstPoint : bool,
    Js.curve_loop (Js.lift run_body) s expression cols firstPoint
    = Js.Finished (curve_loop run_body s expression cols firstPoint).
Proof.
  induction cols as [|xPixel rest IH]; intros firstPoint; [reflexivity |].
  cbn [Js.curve_loop curve_loop].
  unfold Js.sample, Js.evaluateFunction, Js.lift, sample, evaluateFunction,
    try_catch, breaks.
  destruct (run_body (function_body expression) _) as [[q| | | |]|];
    cbn; rewrite ?IH; reflexivity.
Qed.

Lemma Js_drawCurve_lift (run_body : string -> Q -> completion) (s : State) :
  Js.drawCurve (Js.lift run_body) s = Js.Finished (drawCurve run_body s).
Proof.
  unfold Js.drawCurve, drawCurve.
  destruct (String.eqb (inputValue s) ""); [reflexivity |].
  apply Js_curve_loop_lift.
Qed.

(** A value on which [ToNumber] throws ends the loop where it is met. *)
Lemma Js_curve_loop_aborts (run_script : string -> Q -> Js.result)
      (s : State) (expression : string) (j : Z) (cols : list Z) :
  In j cols ->
  run_script (function_body expression) (column_x s j)
  = Js.Returns Js.Unconvertible ->
  forall firstPoint : bool,
  exists calls,
    Js.curve_loop run_script s expression cols firstPoint
    = Js.TypeError calls.
Proof.
  intros Hin Hj. induction cols as [|c rest IH]; [destruct Hin |].
  intros firstPoint. cbn [Js.curve_loop].
  destruct Hin as [-> | Hin].
  - exists []. unfold Js.sample, Js.evaluateFunction.
    unfold column_x, mathX in Hj. rewrite Hj. reflexivity.
  - specialize (IH Hin).
    destruct (Js.isNaN _) as [[|]|]; [apply IH | | exists []; reflexivity].
    destruct (Js.isFinite _) as [[|]|];
      [| apply IH | exists []; reflexivity].
    destruct (Js.ToNumber _) as [[q| | | |]|]; try apply IH.
    destruct (IH false) as [calls ->]. eexists. reflexivity.
Qed.

Lemma In_columns (s : State) (j : Z) :
  (0 <= j <= width s)%Z -> In j (columns s).
Proof.
  intros Hj. rewrite (columns_split s j Hj).
  apply in_or_app. right. left. reflexivity.
Qed.

(** C3, where the code departs from the claim.  evaluateFunction returns
    whatever the expression evaluates to, and a BigInt or a Symbol is
    returned normally, not thrown.  [isNaN(y)] of line 304 stands outside
    both [try] blocks and throws a [TypeError] on such a value: whenever the
    sample of one visible column is such a value, drawCurve ends with that
    exception and never reaches [ctx.stroke()], so nothing of the curve is
    painted. *)
Theorem unconvertible_sample_aborts_drawCurve
        (run_script : string -> Q -> Js.result) (s : State) (j : Z) :
  (0 <= j <= width s)%Z ->
  inputValue s <> ""%string ->
  run_script (function_body (inputValue s)) (column_x s j)
  = Js.Returns Js.Unconvertible ->
  Js.evaluateFunction run_script (inputValue s) (column_x s j)
  = Js.Returns Js.Unconvertible /\
  exists calls, Js.drawCurve run_script s = Js.TypeError calls.
Proof.
  intros Hj Hexpr Hrun. split.
  - unfold Js.evaluateFunction. rewrite Hrun. reflexivity.
  - unfold Js.drawCurve.
    destruct (String.eqb (inputValue s) "") eqn:E.
    + apply String.eqb_eq in E. contradiction.
    + apply (Js_curve_loop_aborts run_script s (inputValue s) j);
        [apply In_columns; exact Hj | exact Hrun].
Qed.

Lemma unconvertible_sample_aborts_drawCurve_witness :
  (0 <= 3 <= width (small_page "1n"))%Z /\
  inputValue (small_page "1n") <> ""%string /\
  Js.evaluateFunction demo_run_script (inputValue (small_page "1n"))
                      (column_x (small_page "1n") 3)
  = Js.Returns Js.Unconvertible /\
  exists calls,
    Js.drawCurve demo_run_script (small_page "1n") = Js.TypeError calls.
Proof.
  assert (H1 : (0 <= 3 <= width (small_page "1n"))%Z) by (cbn; lia).
  assert (H2 : inputValue (small_page "1n") <> ""%string) by discriminate.
  assert (H3 : demo_run_script (function_body (inputValue (small_page "1n")))
                               (column_x (small_page "1n") 3)
               = Js.Returns Js.Unconvertible) by reflexivity.
  split; [exact H1 | split; [exact H2 |]].
  exact (unconvertible_sample_aborts_drawCurve
           demo_run_script (small_page "1n") 3%Z H1 H2 H3).
Defined.

(** The expression [1n] on the 8 by 6 page: the first column already ends
    drawCurve, with no path call issued. *)
Example bigint_expression_paints_nothing :
  Js.drawCurve demo_run_script (small_page "1n") = Js.TypeError [].
Proof. reflexivity. Qed.

(** The same engine on an expression of numbers finishes, with the calls of
    [drawCurve]. *)
Example number_expression_finishes :
  Js.drawCurve demo_run_script demo_gap
  = Js.Finished (drawCurve demo_run_body demo_gap).
Proof. vm_compute. reflexivity. Qed.

Lemma demo_gap_sample (x : Q) :
  sample demo_run_body (inputValue demo_gap) x
  = if Qle_bool 1 (x * x) then Num x else NaN.
Proof. reflexivity. Qed.

Lemma demo_gap_undefined (x : Q) :
  breaks (sample demo_run_body (inputValue demo_gap) x) = true
  <-> -1 < x /\ x < 1.
Proof.
  rewrite demo_gap_sample.
  destruct (Qle_bool 1 (x * x)) eqn:H.
  - apply Qle_bool_iff in H. split; [discriminate | intros [? ?]; nra].
  - assert (H' : x * x < 1).
    { apply Qnot_le_lt. intros C. apply Qle_bool_iff in C. congruence. }
    split; [intros _; split; nra | reflexivity].
Qed.

Lemma discontinuity_splits_curve_witness :
  (forall x, demo_run_body "return ;" x = Normal Undefined) /\
  0 < scale (config demo_gap) /\
  column_x demo_gap 0 <= -1 /\
  (-1 < column_x demo_gap 4 /\ column_x demo_gap 4 < 1) /\
  1 <= column_x demo_gap 8 /\
  let segs := segments (drawCurve demo_run_body demo_gap) in
  (2 <= length segs)%nat /\
  (forall seg xPixel yPixel,
      In seg segs -> In (xPixel, yPixel) seg ->
      ~ (-1 < column_x demo_gap xPixel /\ column_x demo_gap xPixel < 1)) /\
  NoDup (map fst (concat segs)).
Proof.
  assert (H0 : forall x, demo_run_body "return ;" x = Normal Undefined)
    by reflexivity.
  assert (H1 : 0 < scale (config demo_gap)) by reflexivity.
  assert (H2 : column_x demo_gap 0 <= -1) by (vm_compute; discriminate).
  assert (H3 : -1 < column_x demo_gap 4 /\ column_x demo_gap 4 < 1)
    by (split; reflexivity).
  assert (H4 : 1 <= column_x demo_gap 8) by (vm_compute; discriminate).
  assert (Hi : (0 <= 0)%Z) by lia.
  assert (Hk : (8 <= width demo_gap)%Z) by (cbn; lia).
  repeat (split; [assumption |]).
  exact (discontinuity_splits_curve demo_run_body demo_gap (-1) 1 0 4 8
           H0 H1 demo_gap_undefined Hi Hk H2 H3 H4).
Defined.

(** ** Scenarios *)

Example calculateStep_default : calculateStep default_config == 2.
Proof. reflexivity. Qed.

Example calculateStep_at_scale_min :
  calculateStep (set_scale 0.001 default_config) == 100000.
Proof. reflexivity. Qed.

Example calculateStep_at_scale_max :
  calculateStep (set_scale 100000 default_config) == 0.001.
Proof. reflexivity. Qed.

(** Reset restores the default transform, whatever the state. *)
Example reset_restores_defaults (s : State) :
  scale (config (onReset s)) = 40 /\
  offsetX (config (onReset s)) = 0 /\
  offsetY (config (onReset s)) = 0.
Proof. repeat split. Qed.

(** Wheel zoom-in at the centre of the default view: the scale becomes 44
    and the offsets stay at 0. *)
Example zoom_in_at_center :
  let s' := onWheel (-1) 400 300 0 0 demo in
  scale (config s') == 44 /\
  offsetX (config s') == 0 /\
  offsetY (config s') == 0.
Proof. repeat split. Qed.

(** Repeated zoom-out stops at 0.001 and repeated zoom-in at 100000. *)
Example zoom_out_saturates :
  scale (config (run (set_config (set_scale 0.002 default_config) demo)
                     (repeat (Wheel 1 400 300 0 0) 10))) == 0.001.
Proof. vm_compute. reflexivity. Qed.

Example zoom_in_saturates :
  scale (config (run (set_config (set_scale 50000 default_config) demo)
                     (repeat (Wheel (-1) 400 300 0 0) 10))) == 100000.
Proof. vm_compute. reflexivity. Qed.

(** The ticks of the default 800 by 600 view. *)
Example xTicks_demo :
  option_map (map Qred) (xTicks 12 demo)
  = Some [-10; -8; -6; -4; -2; 0; 2; 4; 6; 8; 10].
Proof. vm_compute. reflexivity. Qed.

Example yTicks_demo :
  option_map (map Qred) (yTicks 10 demo)
  = Some [-8; -6; -4; -2; 0; 2; 4; 6; 8].
Proof. vm_compute. reflexivity. Qed.

(** Column 400 of the default view is [x = 0]; [x*x] is drawn there at
    pixel row 300. *)
Example demo_column_400 :
  column_x demo 400 == 0 /\
  exists yPixel,
    nth_error (drawCurve demo_run_body demo) 400 = Some (LineTo 400 yPixel) /\
    yPixel == 300.
Proof.
  split; [reflexivity |].
  eexists. split; [vm_compute; reflexivity | reflexivity].
Qed.

(** The curve with a gap: two segments, columns 0 to 3 and 5 to 8. *)
Example demo_gap_segments :
  map (map fst) (segments (drawCurve demo_run_body demo_gap))
  = [[0; 1; 2; 3]; [5; 6; 7; 8]]%Z.
Proof. vm_compute. reflexivity. Qed.

(** The expression that throws for [x <= 0]: columns 5 to 8 are drawn. *)
Example demo_throw_curve :
  map cmd_x (drawCurve demo_run_body demo_throw) = [5; 6; 7; 8]%Z /\
  count_moveTo (drawCurve demo_run_body demo_throw) = 1%nat.
Proof. vm_compute. split; reflexivity. Qed.

(** An expression that does not parse draws nothing. *)
Example syntax_error_draws_nothing :
  drawCurve demo_run_body (small_page "x +* ") = [].
Proof. reflexivity. Qed.

(** * Further properties of the code *)

(** ** Dragging *)

Lemma run_app (s : State) (es1 es2 : list Event) :
  run s (es1 ++ es2) = run (run s es1) es2.
Proof. apply fold_left_app. Qed.

(** One mouse move of a drag, field by field. *)
Lemma onMouseMove_dragging (x y : Q) (s : State) :
  isDragging s = true ->
  let s' := onMouseMove x y s in
  offsetX (config s')
  = offsetX (config s) + (x - lastMouseX s) / scale (config s) /\
  offsetY (config s')
  = offsetY (config s) + (y - lastMouseY s) / scale (config s) /\
  scale (config s') = scale (config s) /\
  lastMouseX s' = x /\ lastMouseY s' = y /\ isDragging s' = true /\
  centerX s' = centerX s /\ centerY s' = centerY s.
Proof.
  intros Hd. unfold onMouseMove. rewrite Hd. cbn.
  repeat split; try reflexivity. exact Hd.
Qed.

(** A run of mouse moves during a drag. *)
Lemma moves_while_dragging (path : list (Q * Q)) :
  forall (s : State) (x y : Q),
    isDragging s = true ->
    0 < scale (config s) ->
    let s' := run s (moves (path ++ [(x, y)])) in
    offsetX (config s')
    == offsetX (config s) + (x - lastMouseX s) / scale (config s) /\
    offsetY (config s')
    == offsetY (config s) + (y - lastMouseY s) / scale (config s) /\
    scale (config s') = scale (config s) /\
    lastMouseX s' = x /\ lastMouseY s' = y /\ isDragging s' = true /\
    centerX s' = centerX s /\ centerY s' = centerY s.
Proof.
  induction path as [|[px py] path IH]; intros s x y Hd Hpos.
  - cbn [app moves map run fold_left handle fst snd].
    destruct (onMouseMove_dragging x y s Hd)
      as (Hx & Hy & Hs & Hlx & Hly & Hd' & Hcx & Hcy).
    rewrite Hx, Hy. repeat split; try assumption; reflexivity.
  - cbn [app moves map run fold_left handle fst snd].
    destruct (onMouseMove_dragging px py s Hd)
      as (Hx & Hy & Hs & Hlx & Hly & Hd' & Hcx & Hcy).
    set (s1 := onMouseMove px py s) in *.
    assert (Hpos1 : 0 < scale (config s1)) by (rewrite Hs; exact Hpos).
    destruct (IH s1 x y Hd' Hpos1)
      as (Ix & Iy & Is & Ilx & Ily & Id & Icx & Icy).
    unfold moves, run in Ix, Iy, Is, Ilx, Ily, Id, Icx, Icy.
    rewrite Ix, Iy, Is, Icx, Icy, Hx, Hy, Hs, Hlx, Hly, Hcx, Hcy.
    repeat split; try assumption; try reflexivity; field; lra.
Qed.

(** X1.  In exact arithmetic a drag is path independent: while the button
    is held, after any sequence of mouse moves that ends at [(x, y)] the
    offsets are those of a single move from where the drag stood to
    [(x, y)]; the scale is untouched and the drag goes on from [(x, y)].
    On binary64 the offsets of two routes can differ
    ([drag_route_matters_on_binary64]). *)
Theorem drag_path_independent (path : list (Q * Q)) :
  forall (s : State) (x y : Q),
    isDragging s = true ->
    0 < scale (config s) ->
    let s' := run s (moves (path ++ [(x, y)])) in
    offsetX (config s')
    == offsetX (config s) + (x - lastMouseX s) / scale (config s) /\
    offsetY (config s')
    == offsetY (config s) + (y - lastMouseY s) / scale (config s) /\
    scale (config s') = scale (config s) /\
    lastMouseX s' = x /\ lastMouseY s' = y /\ isDragging s' = true.
Proof.
  intros s x y Hd Hpos.
  destruct (moves_while_dragging path s x y Hd Hpos)
    as (Hx & Hy & Hs & Hlx & Hly & Hd' & _ & _).
  repeat split; assumption.
Qed.

Lemma drag_path_independent_witness :
  isDragging demo_drag = true /\
  0 < scale (config demo_drag) /\
  let s' := run demo_drag (moves ([(130, 85); (90, 300)] ++ [(120, 140)])) in
  offsetX (config s')
  == offsetX (config demo_drag)
     + (120 - lastMouseX demo_drag) / scale (config demo_drag) /\
  offsetY (config s')
  == offsetY (config demo_drag)
     + (140 - lastMouseY demo_drag) / scale (config demo_drag) /\
  scale (config s') = scale (config demo_drag) /\
  lastMouseX s' = 120 /\ lastMouseY s' = 140 /\ isDragging s' = true.
Proof.
  assert (Hd : isDragging demo_drag = true) by reflexivity.
  assert (Hp : 0 < scale (config demo_drag)) by reflexivity.
  split; [exact Hd | split; [exact Hp |]].
  exact (drag_path_independent [(130, 85); (90, 300)] demo_drag 120 140 Hd Hp).
Defined.

(** X2.  Without the left button nothing moves: when no drag is under
    way, mouse moves and presses of any other button leave the whole state
    as it is. *)
Theorem idle_mouse_changes_nothing (es : list Event) :
  forall s : State,
    isDragging s = false ->
    forallb without_left_button es = true ->
    run s es = s.
Proof.
  induction es as [|e es IH]; intros s Hd Hes; [reflexivity |].
  cbn [forallb] in Hes. apply andb_prop in Hes. destruct Hes as [He Hes].
  cbn [run fold_left].
  assert (E : handle s e = s).
  { destruct e; cbn in He; try discriminate; cbn [handle].
    - unfold onMouseDown.
      destruct (button =? 0)%Z; [discriminate | reflexivity].
    - unfold onMouseMove. rewrite Hd. reflexivity. }
  rewrite E. apply IH; assumption.
Qed.

Lemma idle_mouse_changes_nothing_witness :
  isDragging demo = false /\
  forallb without_left_button
          [MouseMove 10 20; MouseDown 2 30 40; MouseMove 50 60] = true /\
  run demo [MouseMove 10 20; MouseDown 2 30 40; MouseMove 50 60] = demo.
Proof.
  assert (Hd : isDragging demo = false) by reflexivity.
  assert (He : forallb without_left_button
                 [MouseMove 10 20; MouseDown 2 30 40; MouseMove 50 60] = true)
    by reflexivity.
  split; [exact Hd | split; [exact He |]].
  exact (idle_mouse_changes_nothing _ demo Hd He).
Defined.

(** ** The wheel *)

(** The transform after a wheel event, in terms of the new scale. *)
Lemma onWheel_offsets (d x y l t : Q) (s : State) :
  let s' := onWheel d x y l t s in
  let ns := scale (config s') in
  offsetX (config s') = (x - l - centerX s) / ns - mathX s (x - l) /\
  offsetY (config s') = mathY s (y - t) - (centerY s - (y - t)) / ns /\
  centerX s' = centerX s /\ centerY s' = centerY s.
Proof. repeat split. Qed.

(** The math point under the cursor is the same before and after. *)
Lemma onWheel_anchor_math (d x y l t : Q) (s : State) :
  scale_in_range s ->
  let s' := onWheel d x y l t s in
  mathX s' (x - l) == mathX s (x - l) /\ mathY s' (y - t) == mathY s (y - t).
Proof.
  intros Hs s'.
  pose proof (scale_in_range_pos s Hs) as Hpos.
  assert (Hpos' : 0 < scale (config s'))
    by apply scale_in_range_pos, onWheel_scale_in_range.
  destruct (onWheel_offsets d x y l t s) as (Hx & Hy & Hcx & Hcy).
  fold s' in Hx, Hy, Hcx, Hcy.
  unfold mathX at 1, mathY at 1. rewrite Hx, Hy, Hcx, Hcy.
  set (ns := scale (config s')) in *.
  split; field; lra.
Qed.

(** X3.  In exact arithmetic zooming at a limit changes nothing: with the
    scale at 100000 a wheel-up event, and with the scale at 0.001 any other
    wheel event, leaves the scale and both offsets as they were.  On
    binary64 the scale stays and the recomputed offsets can differ
    ([wheel_at_limit_rounds_on_binary64]). *)
Theorem wheel_at_limit_is_identity (d x y l t : Q) (s : State) :
  (scale (config s) == 100000 /\ d < 0) \/
  (scale (config s) == 0.001 /\ 0 <= d) ->
  let s' := onWheel d x y l t s in
  scale (config s') == scale (config s) /\
  offsetX (config s') == offsetX (config s) /\
  offsetY (config s') == offsetY (config s).
Proof.
  intros H s'.
  assert (Hr : scale_in_range s).
  { unfold scale_in_range. destruct H as [[E _] | [E _]]; rewrite E;
      split; vm_compute; discriminate. }
  assert (Hsc : scale (config s') == scale (config s)).
  { subst s'. rewrite onWheel_scale.
    destruct H as [[E Hd] | [E Hd]]; rewrite E.
    - apply Qltb_lt in Hd. rewrite Hd. reflexivity.
    - apply Qltb_ge in Hd. rewrite Hd. reflexivity. }
  split; [exact Hsc |].
  pose proof (scale_in_range_pos s Hr) as Hpos.
  destruct (onWheel_offsets d x y l t s) as (Hx & Hy & _ & _).
  fold s' in Hx, Hy. rewrite Hx, Hy, Hsc. unfold mathX, mathY.
  split; field; lra.
Qed.

Lemma wheel_at_limit_is_identity_witness :
  ((scale (config demo_min) == 100000 /\ 1 < 0) \/
   (scale (config demo_min) == 0.001 /\ 0 <= 1)) /\
  let s' := onWheel 1 523 77 10 20 demo_min in
  scale (config s') == scale (config demo_min) /\
  offsetX (config s') == offsetX (config demo_min) /\
  offsetY (config s') == offsetY (config demo_min).
Proof.
  assert (H : (scale (config demo_min) == 100000 /\ 1 < 0) \/
              (scale (config demo_min) == 0.001 /\ 0 <= 1))
    by (right; split; [reflexivity | vm_compute; discriminate]).
  split; [exact H | exact (wheel_at_limit_is_identity _ 523 77 10 20 _ H)].
Defined.

(** X4.  One notch in and one notch out is not the identity: away from
    the limits, a wheel-up event followed by a wheel-down event leaves the
    scale, in exact arithmetic, at 99% of what it was.  On binary64 the
    equality is not exact ([wheel_in_then_out_rounds_on_binary64]). *)
Theorem wheel_in_then_out_shrinks (d1 d2 x y l t x' y' l' t' : Q) (s : State) :
  scale (config s) * 1.1 <= 100000 ->
  0.001 <= scale (config s) * 0.99 ->
  d1 < 0 -> 0 <= d2 ->
  scale (config (onWheel d2 x' y' l' t' (onWheel d1 x y l t s)))
  == 0.99 * scale (config s).
Proof.
  intros Hhi Hlo Hd1 Hd2.
  rewrite onWheel_scale. cbv zeta.
  apply Qltb_ge in Hd2. rewrite Hd2.
  rewrite onWheel_scale. cbv zeta.
  apply Qltb_lt in Hd1. rewrite Hd1.
  set (sc := scale (config s)) in *.
  assert (E1 : Qmin 100000 (Qmax 0.001 (sc * 1.1)) == sc * 1.1).
  { rewrite Q.max_r by lra. apply Q.min_r. exact Hhi. }
  rewrite E1.
  rewrite Q.max_r by lra. rewrite Q.min_r by lra. ring.
Qed.

Lemma wheel_in_then_out_shrinks_witness :
  scale (config demo) * 1.1 <= 100000 /\
  0.001 <= scale (config demo) * 0.99 /\
  -1 < 0 /\ 0 <= 1 /\
  scale (config (onWheel 1 400 300 0 0 (onWheel (-1) 400 300 0 0 demo)))
  == 0.99 * scale (config demo).
Proof.
  assert (H1 : scale (config demo) * 1.1 <= 100000)
    by (vm_compute; discriminate).
  assert (H2 : 0.001 <= scale (config demo) * 0.99)
    by (vm_compute; discriminate).
  assert (H3 : -1 < 0) by reflexivity.
  assert (H4 : 0 <= 1) by (vm_compute; discriminate).
  split; [exact H1 | split; [exact H2 |]].
  split; [exact H3 | split; [exact H4 |]].
  exact (wheel_in_then_out_shrinks (-1) 1 400 300 0 0 400 300 0 0 demo
           H1 H2 H3 H4).
Defined.

(** X5.  In exact arithmetic the anchor holds over a whole gesture: after
    any number of wheel events at one cursor position, in either direction
    and clamped or not, the math point under the cursor is the one that was
    there at the start.  On binary64 the equality is not exact, already
    for a single event. *)
Theorem wheel_gesture_keeps_anchor (deltas : list Q) (x y l t : Q) :
  forall s : State,
    scale_in_range s ->
    let s' := run s (wheels deltas x y l t) in
    mathX s' (x - l) == mathX s (x - l) /\
    mathY s' (y - t) == mathY s (y - t).
Proof.
  induction deltas as [|d deltas IH]; intros s Hs.
  - cbn. split; reflexivity.
  - cbn [wheels map run fold_left handle].
    destruct (onWheel_anchor_math d x y l t s Hs) as [Hx Hy].
    destruct (IH (onWheel d x y l t s)
                 (onWheel_scale_in_range d x y l t s)) as [Ix Iy].
    unfold wheels, run in Ix, Iy. cbv zeta in Ix, Iy.
    split; [rewrite Ix; exact Hx | rewrite Iy; exact Hy].
Qed.

Lemma wheel_gesture_keeps_anchor_witness :
  scale_in_range demo /\
  let s' := run demo (wheels [-1; -1; 1; 1; 1] 523 77 10 20) in
  mathX s' (523 - 10) == mathX demo (523 - 10) /\
  mathY s' (77 - 20) == mathY demo (77 - 20).
Proof.
  assert (H : scale_in_range demo) by (split; vm_compute; discriminate).
  split; [exact H |].
  exact (wheel_gesture_keeps_anchor [-1; -1; 1; 1; 1] 523 77 10 20 demo H).
Defined.

(** ** What no handler touches *)

Lemma handle_style (s : State) (e : Event) :
  style_of (config (handle s e)) = style_of (config s).
Proof.
  destruct e; cbn [handle]; try reflexivity.
  - unfold onMouseDown. destruct (button =? 0)%Z; reflexivity.
  - unfold onMouseMove. destruct (isDragging s); reflexivity.
Qed.

Lemma run_style (es : list Event) :
  forall s : State, style_of (config (run s es)) = style_of (config s).
Proof.
  induction es as [|e es IH]; intros s; [reflexivity |].
  cbn [run fold_left]. fold (run (handle s e) es).
  rewrite IH. apply handle_style.
Qed.

(** X6.  Reset after any history: whatever events came before, a click on
    the reset button leaves [config] equal to the configuration the script
    started with, field for field. *)
Theorem reset_restores_default_config (w h : Z) (expr : string)
    (es : list Event) :
  config (run (initial w h expr) (es ++ [ResetClick])) = default_config.
Proof.
  rewrite run_app. cbn [run fold_left handle].
  pose proof (run_style es (initial w h expr)) as Hst.
  fold (run (initial w h expr) es).
  set (s := run (initial w h expr) es) in *.
  unfold onReset. cbn [config set_config].
  destruct (config s) as [sc ox oy st ac gc lc lw].
  unfold style_of in Hst. cbn in Hst.
  injection Hst as -> -> -> -> ->. reflexivity.
Qed.

Lemma handle_centered (s : State) (e : Event) :
  centered s -> centered (handle s e).
Proof.
  intros Hc. destruct e; cbn [handle]; try exact Hc.
  - split; reflexivity.
  - unfold onMouseDown. destruct (button =? 0)%Z; exact Hc.
  - unfold onMouseMove. destruct (isDragging s); exact Hc.
Qed.

(** X7.  The centre is always the middle of the viewport: after any
    sequence of events, [centerX] and [centerY] are half of the current
    [width] and [height], so the math point [(-offsetX, offsetY)] is drawn
    at the middle of the canvas. *)
Theorem center_is_half_viewport (w h : Z) (expr : string) (es : list Event) :
  let s := run (initial w h expr) es in
  centerX s = inject_Z (width s) / 2 /\
  centerY s = inject_Z (height s) / 2 /\
  screenX s (- offsetX (config s)) == inject_Z (width s) / 2 /\
  screenY s (offsetY (config s)) == inject_Z (height s) / 2.
Proof.
  intros s.
  assert (Hc : centered s).
  { subst s. generalize (initial w h expr), (conj eq_refl eq_refl
      : centered (initial w h expr)).
    induction es as [|e es IH]; intros s0 H0; [exact H0 |].
    cbn [run fold_left]. apply IH, handle_centered, H0. }
  destruct Hc as [Hx Hy].
  split; [exact Hx | split; [exact Hy |]].
  unfold screenX, screenY. rewrite Hx, Hy. split; ring.
Qed.

(** ** More on the grid step *)

(** The step in pixels. *)
Lemma calculateStep_times_scale (c : Config) :
  0 < scale c ->
  80 <= calculateStep c * scale c /\ calculateStep c * scale c < 200.
Proof.
  intros Hpos.
  destruct (calculateStep_cases c Hpos) as (Hlo & Hhi & Hc).
  assert (Hu : 80 / scale c * scale c == 80) by (field; lra).
  set (u := 80 / scale c) in *.
  set (m := 10 ^ floor_log10 u) in *.
  assert (Hm : 0 < m) by apply pow10_pos.
  destruct Hc as [[? ->] | [(? & ? & ->) | [(? & ? & ->) | [? ->]]]];
    split; nra.
Qed.

(** X9.  The step is the least nice number that covers 80 pixels: it is
    at least [80 / scale], and no number [d * 10^j] with [d] in {1, 2, 5}
    that is at least [80 / scale] is smaller. *)
Theorem calculateStep_least_nice (c : Config) (d : Q) (j : Z) :
  0 < scale c ->
  d == 1 \/ d == 2 \/ d == 5 ->
  80 / scale c <= d * 10 ^ j ->
  80 / scale c <= calculateStep c /\ calculateStep c <= d * 10 ^ j.
Proof.
  intros Hpos Hd Hn.
  destruct (calculateStep_cases c Hpos) as (Hlo & Hhi & Hc).
  destruct (calculateStep_bounds c Hpos) as (_ & Hub & Hge).
  split; [exact Hge |].
  set (u := 80 / scale c) in *.
  set (k := floor_log10 u) in *.
  pose proof (pow10_pos k) as Hm. pose proof (pow10_pos j) as Hj.
  destruct (Z_lt_le_dec k j) as [Hkj | Hjk].
  - (* a higher decade *)
    assert (10 * 10 ^ k <= 10 ^ j)
      by (rewrite <- pow10_succ; apply pow10_le; lia).
    assert (10 ^ j <= d * 10 ^ j)
      by (destruct Hd as [-> | [-> | ->]]; lra).
    lra.
  - destruct (Z.eq_dec j k) as [-> | Hne].
    + (* the same decade *)
      fold k in Hn.
      destruct Hd as [Ed | [Ed | Ed]]; rewrite Ed in *;
        destruct Hc as [[? ->] | [(? & ? & ->) | [(? & ? & ->) | [? ->]]]];
        lra.
    + (* a lower decade is too small *)
      exfalso.
      assert (10 * 10 ^ j <= 10 ^ k)
        by (rewrite <- pow10_succ; apply pow10_le; lia).
      assert (d * 10 ^ j <= 5 * 10 ^ j)
        by (destruct Hd as [-> | [-> | ->]]; lra).
      lra.
Qed.

Lemma calculateStep_least_nice_witness :
  0 < scale (set_scale 15 default_config) /\
  (1 == 1 \/ 1 == 2 \/ 1 == 5) /\
  80 / scale (set_scale 15 default_config) <= 1 * 10 ^ 1 /\
  80 / scale (set_scale 15 default_config)
  <= calculateStep (set_scale 15 default_config) /\
  calculateStep (set_scale 15 default_config) <= 1 * 10 ^ 1.
Proof.
  assert (H1 : 0 < scale (set_scale 15 default_config)) by reflexivity.
  assert (H2 : 1 == 1 \/ 1 == 2 \/ 1 == 5) by (left; reflexivity).
  assert (H3 : 80 / scale (set_scale 15 default_config) <= 1 * 10 ^ 1)
    by (vm_compute; discriminate).
  split; [exact H1 | split; [exact H2 | split; [exact H3 |]]].
  exact (calculateStep_least_nice (set_scale 15 default_config) 1 1 H1 H2 H3).
Defined.

(** X10.  Decades repeat: at a tenth of the scale the step is ten times as
    large, so the grid looks the same each time the view is zoomed by a
    factor of ten. *)
Theorem calculateStep_decade (c : Config) :
  0 < scale c ->
  calculateStep (set_scale (scale c / 10) c) == 10 * calculateStep c.
Proof.
  intros Hpos.
  set (c' := set_scale (scale c / 10) c).
  assert (Esc : scale c' = scale c / 10) by reflexivity.
  assert (Hpos' : 0 < scale c').
  { rewrite Esc. apply Qlt_shift_div_l; lra. }
  destruct (calculateStep_cases c Hpos) as (Hlo & Hhi & Hc).
  destruct (calculateStep_cases c' Hpos') as (Hlo' & Hhi' & Hc').
  assert (Eu : 80 / scale c' == 10 * (80 / scale c))
    by (rewrite Esc; field; lra).
  set (u := 80 / scale c) in *. set (u' := 80 / scale c') in *.
  set (k := floor_log10 u) in *.
  pose proof (pow10_pos k) as Hm.
  assert (Ek : floor_log10 u' = (k + 1)%Z).
  { apply floor_log10_unique.
    - rewrite pow10_succ. lra.
    - rewrite (pow10_succ (k + 1)), pow10_succ. lra. }
  rewrite Ek in Hlo', Hhi', Hc'.
  pose proof (pow10_succ k) as Em.
  set (m := 10 ^ k) in *. set (m' := 10 ^ (k + 1)) in *.
  destruct Hc as [[? ->] | [(? & ? & ->) | [(? & ? & ->) | [? ->]]]];
    destruct Hc' as [[? ->] | [(? & ? & ->) | [(? & ? & ->) | [? ->]]]];
    lra.
Qed.

Lemma calculateStep_decade_witness :
  0 < scale default_config /\
  calculateStep (set_scale (scale default_config / 10) default_config)
  == 10 * calculateStep default_config.
Proof.
  assert (H : 0 < scale default_config) by reflexivity.
  split; [exact H | exact (calculateStep_decade default_config H)].
Defined.

(** ** The range and the ticks of the grid *)

Lemma floor_multiple_bounds (a st : Q) :
  0 < st ->
  inject_Z (Qfloor (a / st)) * st <= a /\
  a < inject_Z (Qfloor (a / st)) * st + st.
Proof.
  intros Hst.
  pose proof (Qfloor_le (a / st)) as H1.
  pose proof (Qlt_floor (a / st)) as H2.
  rewrite inject_Z_plus in H2. change (inject_Z 1) with 1 in H2.
  assert (E : a / st * st == a) by (field; lra).
  set (q := a / st) in *. set (f := inject_Z (Qfloor q)) in *.
  split; nra.
Qed.

Lemma ceiling_multiple_bounds (a st : Q) :
  0 < st ->
  a <= inject_Z (Qceiling (a / st)) * st /\
  inject_Z (Qceiling (a / st)) * st - st < a.
Proof.
  intros Hst.
  pose proof (Qle_ceiling (a / st)) as H1.
  pose proof (Qceiling_lt (a / st)) as H2.
  unfold Z.sub in H2. rewrite inject_Z_plus in H2.
  change (inject_Z (- (1))) with (- (1)) in H2.
  assert (E : a / st * st == a) by (field; lra).
  set (q := a / st) in *. set (f := inject_Z (Qceiling q)) in *.
  split; nra.
Qed.

(** The two ends of the x range are the math [x] of the first and of the
    last pixel column. *)
Lemma startX_endX_columns (s : State) :
  startX s == column_x s 0 /\ endX s == column_x s (width s).
Proof.
  unfold startX, endX, column_x, mathX. split; [| reflexivity].
  change (inject_Z 0) with 0.
  unfold Qdiv. ring.
Qed.

(** X11.  The grid covers the viewport and no more than a step beyond it:
    for a scale in its range, [minX] and [maxX] enclose the math [x] of
    the first and last pixel column, [minY] and [maxY] enclose the two
    ends of the y range, and each bound lies less than one step outside. *)
Theorem grid_range_covers_viewport (s : State) :
  scale_in_range s ->
  let st := calculateStep (config s) in
  let loY := Qmin (startY s) (endY s) in
  let hiY := Qmax (startY s) (endY s) in
  (minX s <= column_x s 0 /\ column_x s 0 < minX s + st) /\
  (column_x s (width s) <= maxX s /\ maxX s - st < column_x s (width s)) /\
  (minY s <= loY /\ loY < minY s + st) /\
  (hiY <= maxY s /\ maxY s - st < hiY).
Proof.
  intros Hs st loY hiY.
  pose proof (calculateStep_pos (config s) (scale_in_range_pos s Hs)) as Hst.
  destruct (startX_endX_columns s) as [E0 Ew].
  rewrite <- E0, <- Ew.
  unfold minX, maxX, minY, maxY. cbv zeta. fold st. fold loY. fold hiY.
  repeat split;
    first [ apply floor_multiple_bounds; exact Hst
          | apply ceiling_multiple_bounds; exact Hst ].
Qed.

Lemma grid_range_covers_viewport_witness :
  scale_in_range demo /\
  let st := calculateStep (config demo) in
  let loY := Qmin (startY demo) (endY demo) in
  let hiY := Qmax (startY demo) (endY demo) in
  (minX demo <= column_x demo 0 /\ column_x demo 0 < minX demo + st) /\
  (column_x demo (width demo) <= maxX demo /\
   maxX demo - st < column_x demo (width demo)) /\
  (minY demo <= loY /\ loY < minY demo + st) /\
  (hiY <= maxY demo /\ maxY demo - st < hiY).
Proof.
  assert (H : scale_in_range demo) by (split; vm_compute; discriminate).
  split; [exact H | exact (grid_range_covers_viewport demo H)].
Defined.

(** A tick loop whose bound lies [n] whole steps, and less than [n + 1],
    above its start makes [n + 1] turns, at [x], [x + step], ... *)
Lemma for_ticks_exact (st : Q) (n : nat) :
  0 < st ->
  forall x hi : Q,
    x + inject_Z (Z.of_nat n) * st <= hi ->
    hi < x + inject_Z (Z.of_nat n) * st + st ->
    exists l,
      (forall fuel, (n + 2 <= fuel)%nat -> for_ticks fuel x hi st = Some l) /\
      length l = S n /\
      (forall i t, nth_error l i = Some t ->
                   t == x + inject_Z (Z.of_nat i) * st).
Proof.
  intros Hst. induction n as [|n IH]; intros x hi Hlo Hhi.
  - change (inject_Z (Z.of_nat 0)) with 0 in Hlo, Hhi.
    exists [x]. split; [| split].
    + intros fuel Hf. destruct fuel as [|[|fuel]]; try lia.
      cbn [for_ticks].
      assert (E1 : Qle_bool x hi = true) by (apply Qle_bool_iff; lra).
      assert (E2 : Qle_bool (x + st) hi = false).
      { apply not_true_iff_false. rewrite Qle_bool_iff. lra. }
      rewrite E1, E2. reflexivity.
    + reflexivity.
    + intros [|[|i]] t Ht; cbn in Ht; try discriminate.
      injection Ht as <-. change (inject_Z (Z.of_nat 0)) with 0. ring.
  - rewrite Nat2Z.inj_succ, <- Z.add_1_r, inject_Z_plus in Hlo, Hhi.
    change (inject_Z 1) with 1 in Hlo, Hhi.
    assert (Hn : 0 <= inject_Z (Z.of_nat n))
      by (change 0 with (inject_Z 0); rewrite <- Zle_Qle; lia).
    destruct (IH (x + st) hi) as (l & Hl & Hlen & Hnth); [lra | lra |].
    exists (x :: l). split; [| split].
    + intros fuel Hf. destruct fuel as [|fuel]; [lia |].
      cbn [for_ticks].
      assert (E1 : Qle_bool x hi = true) by (apply Qle_bool_iff; nra).
      rewrite E1, Hl by lia. reflexivity.
    + cbn [length]. rewrite Hlen. reflexivity.
    + intros [|i] t Ht; cbn [nth_error] in Ht.
      * injection Ht as <-. change (inject_Z (Z.of_nat 0)) with 0. ring.
      * rewrite (Hnth i t Ht).
        rewrite Nat2Z.inj_succ, <- Z.add_1_r, inject_Z_plus.
        change (inject_Z 1) with 1. ring.
Qed.

(** The ticks between the floored start and the ceiled end of a range. *)
Lemma ticks_between (a b st : Q) :
  0 < st -> a <= b ->
  let k0 := Qfloor (a / st) in
  let k1 := Qceiling (b / st) in
  let n := Z.to_nat (k1 - k0) in
  exists l,
    (forall fuel, (n + 2 <= fuel)%nat ->
       for_ticks fuel (inject_Z k0 * st) (inject_Z k1 * st) st = Some l) /\
    length l = S n /\
    (forall i t, nth_error l i = Some t ->
                 t == inject_Z (k0 + Z.of_nat i) * st) /\
    (forall k : Z, a <= inject_Z k * st -> inject_Z k * st <= b ->
                   exists t, In t l /\ t == inject_Z k * st).
Proof.
  intros Hst Hab k0 k1 n.
  destruct (floor_multiple_bounds a st Hst) as [F1 F2].
  destruct (ceiling_multiple_bounds b st Hst) as [C1 C2].
  fold k0 in F1, F2. fold k1 in C1, C2.
  assert (Hmono : forall p q : Z,
             inject_Z p * st < inject_Z q * st + st -> (p <= q)%Z).
  { intros p q H. assert (Hlt : (p < q + 1)%Z); [| lia].
    rewrite Zlt_Qlt, inject_Z_plus. change (inject_Z 1) with 1. nra. }
  assert (Hk : (k0 <= k1)%Z) by (apply Hmono; lra).
  assert (En : inject_Z (Z.of_nat n) == inject_Z k1 - inject_Z k0).
  { unfold n. rewrite Z2Nat.id by lia.
    unfold Z.sub. rewrite inject_Z_plus, inject_Z_opp. ring. }
  destruct (for_ticks_exact st n Hst (inject_Z k0 * st) (inject_Z k1 * st))
    as (l & Hl & Hlen & Hnth).
  { rewrite En. apply Qle_lteq. right. ring. }
  { rewrite En. lra. }
  exists l. split; [exact Hl | split; [exact Hlen | split]].
  - intros i t Ht. rewrite (Hnth i t Ht), inject_Z_plus. ring.
  - intros k Hka Hkb.
    assert (Hk0 : (k0 <= k)%Z) by (apply Hmono; lra).
    assert (Hk1 : (k <= k1)%Z) by (apply Hmono; lra).
    destruct (nth_error l (Z.to_nat (k - k0))) as [t |] eqn:Ht.
    + exists t. split; [apply (nth_error_In _ _ Ht) |].
      rewrite (Hnth _ t Ht), Z2Nat.id by lia.
      unfold Z.sub. rewrite inject_Z_plus, inject_Z_opp. ring.
    + apply nth_error_None in Ht. rewrite Hlen in Ht. unfold n in Ht. lia.
Qed.

(** X12.  In exact arithmetic the values of the x loop are the visible
    multiples of the step: for a scale in its range and a viewport of width
    at least 0, the x loop of drawGrid leaves after [k1 - k0 + 1] turns,
    its [i]-th value is [(k0 + i) * step], and every integer multiple of
    the step whose [x] lies between the first and the last pixel column is
    one of them.  On binary64 the sums [x += step] round, and the last
    turn can be lost ([tick_loops_lose_a_turn_on_binary64]). *)
Theorem xTicks_are_the_visible_multiples (s : State) :
  scale_in_range s ->
  (0 <= width s)%Z ->
  let st := calculateStep (config s) in
  let k0 := Qfloor (startX s / st) in
  let k1 := Qceiling (endX s / st) in
  let n := Z.to_nat (k1 - k0) in
  exists xs,
    (forall fuel, (n + 2 <= fuel)%nat -> xTicks fuel s = Some xs) /\
    length xs = S n /\
    (forall i t, nth_error xs i = Some t ->
                 t == inject_Z (k0 + Z.of_nat i) * st) /\
    (forall k : Z,
        column_x s 0 <= inject_Z k * st ->
        inject_Z k * st <= column_x s (width s) ->
        exists t, In t xs /\ t == inject_Z k * st).
Proof.
  intros Hs Hw st k0 k1 n.
  pose proof (scale_in_range_pos s Hs) as Hpos.
  pose proof (calculateStep_pos (config s) Hpos) as Hst.
  destruct (startX_endX_columns s) as [E0 Ew].
  assert (Hab : startX s <= endX s).
  { unfold startX, endX.
    assert (Hw' : 0 <= inject_Z (width s))
      by (change 0 with (inject_Z 0); rewrite <- Zle_Qle; exact Hw).
    pose proof (Qinv_lt_0_compat _ Hpos) as Hi.
    unfold Qdiv. set (i := / scale (config s)) in *. nra. }
  destruct (ticks_between (startX s) (endX s) st Hst Hab)
    as (l & Hl & Hlen & Hnth & Hvis).
  exists l. split; [| split; [exact Hlen | split; [exact Hnth |]]].
  - intros fuel Hf. unfold xTicks, minX, maxX. apply Hl. exact Hf.
  - intros k Hk0 Hkw. apply Hvis; [rewrite E0 | rewrite Ew]; assumption.
Qed.

Lemma xTicks_are_the_visible_multiples_witness :
  scale_in_range demo /\ (0 <= width demo)%Z /\
  let st := calculateStep (config demo) in
  let k0 := Qfloor (startX demo / st) in
  let k1 := Qceiling (endX demo / st) in
  let n := Z.to_nat (k1 - k0) in
  exists xs,
    (forall fuel, (n + 2 <= fuel)%nat -> xTicks fuel demo = Some xs) /\
    length xs = S n /\
    (forall i t, nth_error xs i = Some t ->
                 t == inject_Z (k0 + Z.of_nat i) * st) /\
    (forall k : Z,
        column_x demo 0 <= inject_Z k * st ->
        inject_Z k * st <= column_x demo (width demo) ->
        exists t, In t xs /\ t == inject_Z k * st).
Proof.
  assert (H : scale_in_range demo) by (split; vm_compute; discriminate).
  assert (Hw : (0 <= width demo)%Z) by (cbn; lia).
  split; [exact H | split; [exact Hw |]].
  exact (xTicks_are_the_visible_multiples demo H Hw).
Defined.

(** The y range of drawGrid against the pixel rows: with the centre in
    the middle of a viewport of height at least 0, the smaller end is the
    math [y] of the bottom row and the larger one that of the top row. *)
Lemma y_range_rows (s : State) :
  0 < scale (config s) ->
  centered s ->
  (0 <= height s)%Z ->
  Qmin (startY s) (endY s) == mathY s (inject_Z (height s)) /\
  Qmax (startY s) (endY s) == mathY s 0.
Proof.
  intros Hpos [_ Hc] Hh.
  assert (Hh' : 0 <= inject_Z (height s))
    by (change 0 with (inject_Z 0); rewrite <- Zle_Qle; exact Hh).
  pose proof (Qinv_lt_0_compat _ Hpos) as Hi.
  assert (Hle : startY s <= endY s).
  { unfold startY, endY. rewrite Hc. unfold Qdiv.
    set (i := / scale (config s)) in *. nra. }
  rewrite (Q.min_l _ _ Hle), (Q.max_r _ _ Hle).
  unfold startY, endY, mathY. rewrite Hc. split; field; lra.
Qed.

(** X13.  In exact arithmetic the values of the y loop are the visible
    multiples of the step: for a scale in its range and the centre in the
    middle of a viewport of height at least 0, the y loop of drawGrid
    leaves after [k1 - k0 + 1] turns, its [i]-th value is [(k0 + i) * step],
    and every integer multiple of the step between the math [y] of the
    bottom pixel row and that of the top row is one of them.  On binary64
    the sums [y += step] round, and the last turn can be lost
    ([tick_loops_lose_a_turn_on_binary64]). *)
Theorem yTicks_are_the_visible_multiples (s : State) :
  scale_in_range s ->
  centered s ->
  (0 <= height s)%Z ->
  let st := calculateStep (config s) in
  let k0 := Qfloor (Qmin (startY s) (endY s) / st) in
  let k1 := Qceiling (Qmax (startY s) (endY s) / st) in
  let n := Z.to_nat (k1 - k0) in
  exists ys,
    (forall fuel, (n + 2 <= fuel)%nat -> yTicks fuel s = Some ys) /\
    length ys = S n /\
    (forall i t, nth_error ys i = Some t ->
                 t == inject_Z (k0 + Z.of_nat i) * st) /\
    (forall k : Z,
        mathY s (inject_Z (height s)) <= inject_Z k * st ->
        inject_Z k * st <= mathY s 0 ->
        exists t, In t ys /\ t == inject_Z k * st).
Proof.
  intros Hs Hc Hh st k0 k1 n.
  pose proof (scale_in_range_pos s Hs) as Hpos.
  pose proof (calculateStep_pos (config s) Hpos) as Hst.
  destruct (y_range_rows s Hpos Hc Hh) as [Emin Emax].
  assert (Hab : Qmin (startY s) (endY s) <= Qmax (startY s) (endY s)).
  { apply Qle_trans with (startY s); [apply Q.le_min_l | apply Q.le_max_l]. }
  destruct (ticks_between _ _ st Hst Hab) as (l & Hl & Hlen & Hnth & Hvis).
  exists l. split; [| split; [exact Hlen | split; [exact Hnth |]]].
  - intros fuel Hf. unfold yTicks, minY, maxY. apply Hl. exact Hf.
  - intros k Hk0 Hk1. apply Hvis; [rewrite Emin | rewrite Emax]; assumption.
Qed.

Lemma yTicks_are_the_visible_multiples_witness :
  scale_in_range demo /\ centered demo /\ (0 <= height demo)%Z /\
  let st := calculateStep (config demo) in
  let k0 := Qfloor (Qmin (startY demo) (endY demo) / st) in
  let k1 := Qceiling (Qmax (startY demo) (endY demo) / st) in
  let n := Z.to_nat (k1 - k0) in
  exists ys,
    (forall fuel, (n + 2 <= fuel)%nat -> yTicks fuel demo = Some ys) /\
    length ys = S n /\
    (forall i t, nth_error ys i = Some t ->
                 t == inject_Z (k0 + Z.of_nat i) * st) /\
    (forall k : Z,
        mathY demo (inject_Z (height demo)) <= inject_Z k * st ->
        inject_Z k * st <= mathY demo 0 ->
        exists t, In t ys /\ t == inject_Z k * st).
Proof.
  assert (H : scale_in_range demo) by (split; vm_compute; discriminate).
  assert (Hc : centered demo) by (split; reflexivity).
  assert (Hh : (0 <= height demo)%Z) by (cbn; lia).
  split; [exact H | split; [exact Hc | split; [exact Hh |]]].
  exact (yTicks_are_the_visible_multiples demo H Hc Hh).
Defined.

(** X14.  In exact arithmetic the number of turns of the x loop follows
    the width alone: for a scale in its range and a viewport of width at
    least 0 the loop makes at least [width / 200 + 1] and fewer than
    [width / 80 + 3] turns, whatever the zoom level and the offsets.  It
    counts the turns, each of which issues one line; past ten digits the
    rounding of line 218 can put several of these lines on one pixel
    ([ticks_past_ten_digits_coincide]). *)
Theorem grid_line_count (s : State) :
  scale_in_range s ->
  (0 <= width s)%Z ->
  exists xs fuel,
    xTicks fuel s = Some xs /\
    inject_Z (width s) / 200 + 1 <= inject_Z (Z.of_nat (length xs)) /\
    inject_Z (Z.of_nat (length xs)) < inject_Z (width s) / 80 + 3.
Proof.
  intros Hs Hw.
  pose proof (scale_in_range_pos s Hs) as Hpos.
  pose proof (calculateStep_pos (config s) Hpos) as Hst.
  destruct (calculateStep_times_scale (config s) Hpos) as [P1 P2].
  set (st := calculateStep (config s)) in *.
  assert (Hw' : 0 <= inject_Z (width s))
    by (change 0 with (inject_Z 0); rewrite <- Zle_Qle; exact Hw).
  assert (EW : (endX s - startX s) * scale (config s) == inject_Z (width s))
    by (unfold startX, endX; field; lra).
  assert (Hab : startX s <= endX s) by nra.
  destruct (ticks_between (startX s) (endX s) st Hst Hab)
    as (l & Hl & Hlen & _ & _).
  destruct (floor_multiple_bounds (startX s) st Hst) as [F1 F2].
  destruct (ceiling_multiple_bounds (endX s) st Hst) as [C1 C2].
  set (k0 := Qfloor (startX s / st)) in *.
  set (k1 := Qceiling (endX s / st)) in *.
  assert (Hk : (k0 <= k1)%Z).
  { assert (Hlt : (k0 < k1 + 1)%Z); [| lia].
    rewrite Zlt_Qlt, inject_Z_plus. change (inject_Z 1) with 1. nra. }
  exists l, (Z.to_nat (k1 - k0) + 2)%nat.
  split; [apply Hl; lia |].
  rewrite Hlen, Nat2Z.inj_succ, Z2Nat.id by lia.
  unfold Z.succ, Z.sub. rewrite !inject_Z_plus, inject_Z_opp.
  change (inject_Z 1) with 1.
  set (a := inject_Z k0) in *. set (b := inject_Z k1) in *.
  set (W := inject_Z (width s)) in *. set (sc := scale (config s)) in *.
  set (p := st * sc) in *.
  assert (Hn : 0 <= b - a).
  { unfold a, b. rewrite Zle_Qle in Hk. lra. }
  assert (L : W <= (b - a) * p) by (unfold p; nra).
  assert (U : (b - a - 2) * p < W) by (unfold p; nra).
  clearbody p W a b. clear - Hn L U P1 P2 Hw'.
  assert (E200 : W / 200 == W * (1 # 200)) by field.
  assert (E80 : W / 80 == W * (1 # 80)) by field.
  rewrite E200, E80.
  split.
  - assert (0 <= (b - a) * (200 - p)) by (apply Qmult_le_0_compat; lra).
    lra.
  - destruct (Qlt_le_dec (b - a) 2) as [Hsmall | Hbig].
    + lra.
    + assert (0 <= (b - a - 2) * (p - 80))
        by (apply Qmult_le_0_compat; lra).
      lra.
Qed.

Lemma grid_line_count_witness :
  scale_in_range demo /\ (0 <= width demo)%Z /\
  exists xs fuel,
    xTicks fuel demo = Some xs /\
    inject_Z (width demo) / 200 + 1 <= inject_Z (Z.of_nat (length xs)) /\
    inject_Z (Z.of_nat (length xs)) < inject_Z (width demo) / 80 + 3.
Proof.
  assert (H : scale_in_range demo) by (split; vm_compute; discriminate).
  assert (Hw : (0 <= width demo)%Z) by (cbn; lia).
  split; [exact H | split; [exact Hw | exact (grid_line_count demo H Hw)]].
Defined.

(** ** More on the curve *)

Lemma in_columns (s : State) (x : Z) :
  In x (columns s) <-> (0 <= x <= width s)%Z.
Proof.
  unfold columns. rewrite in_map_iff. split.
  - intros (n & <- & Hn). apply in_seq in Hn. lia.
  - intros Hx. exists (Z.to_nat x). split; [lia | apply in_seq; lia].
Qed.

Section CurveShape.

Variable run_body : string -> Q -> completion.

(** Every path call of the loop is at one of its columns, which has a
    finite sample, and at the pixel row of that sample. *)
Lemma curve_loop_points (s : State) (e : string) (cols : list Z) :
  forall (fp : bool) (c : PathCmd),
    In c (curve_loop run_body s e cols fp) ->
    In (cmd_x c) cols /\
    exists y,
      sample run_body e (column_x s (cmd_x c)) = Num y /\
      cmd_point c = (cmd_x c, screenY s y).
Proof.
  induction cols as [|x cols IH]; intros fp c Hin; [destruct Hin |].
  destruct (breaks (sample run_body e (column_x s x))) eqn:Hx.
  - rewrite curve_loop_skip in Hin by exact Hx.
    destruct (IH _ _ Hin) as [H1 H2]. split; [right; exact H1 | exact H2].
  - destruct (breaks_false_Num _ Hx) as [y Hy].
    rewrite (curve_loop_point _ _ _ _ _ _ y Hy) in Hin.
    destruct Hin as [<- | Hin].
    + destruct fp; cbn [cmd_x cmd_point];
        (split; [left; reflexivity |];
         exists y; split; [exact Hy | reflexivity]).
    + destruct (IH _ _ Hin) as [H1 H2]. split; [right; exact H1 | exact H2].
Qed.

Lemma curve_loop_length (s : State) (e : string) (cols : list Z) :
  forall fp : bool,
    (length (curve_loop run_body s e cols fp) <= length cols)%nat.
Proof.
  intros fp. rewrite <- (length_map cmd_x), curve_loop_columns.
  apply filter_length_le.
Qed.

(** X15.  Every point of the curve is on the graph: each path call of
    drawCurve is at a pixel column of the viewport whose sample is a
    finite number [y], and at the pixel row [screenY y]; there are at most
    [width + 1] calls. *)
Theorem drawCurve_points_on_graph (s : State) :
  (forall c : PathCmd,
      In c (drawCurve run_body s) ->
      (0 <= cmd_x c <= width s)%Z /\
      exists y,
        sample run_body (inputValue s) (column_x s (cmd_x c)) = Num y /\
        cmd_point c = (cmd_x c, screenY s y)) /\
  (length (drawCurve run_body s) <= Z.to_nat (width s + 1))%nat.
Proof.
  unfold drawCurve. destruct (String.eqb (inputValue s) "").
  - split; [intros c [] | cbn; lia].
  - split.
    + intros c Hin.
      destruct (curve_loop_points s _ _ _ _ Hin) as [H1 H2].
      split; [apply in_columns; exact H1 | exact H2].
    + etransitivity; [apply curve_loop_length |].
      unfold columns. rewrite length_map, length_seq. apply Nat.le_refl.
Qed.

(** The loop over consecutive columns, with what [firstPoint] records
    about the column before. *)
Lemma curve_loop_well_joined (s : State) (e : string) (n : nat) :
  forall (a : nat) (prev : option Z) (fp : bool),
    match prev with
    | None => fp = true
    | Some p => if fp then (p + 1 < Z.of_nat a)%Z else (p + 1 = Z.of_nat a)%Z
    end ->
    well_joined prev
      (curve_loop run_body s e (map Z.of_nat (seq a n)) fp) = true.
Proof.
  induction n as [|n IH]; intros a prev fp Hprev; [reflexivity |].
  cbn [seq map].
  destruct (breaks (sample run_body e (column_x s (Z.of_nat a)))) eqn:Hx.
  - rewrite curve_loop_skip by exact Hx. apply IH.
    destruct prev as [p |]; [| reflexivity].
    destruct fp; lia.
  - destruct (breaks_false_Num _ Hx) as [y Hy].
    rewrite (curve_loop_point _ _ _ _ _ _ y Hy).
    cbn [well_joined]. apply andb_true_intro. split.
    + destruct prev as [p |], fp; try reflexivity; try discriminate.
      * apply Z.ltb_lt. exact Hprev.
      * apply Z.eqb_eq. lia.
    + replace (cmd_x (if fp then MoveTo (Z.of_nat a) (screenY s y)
                      else LineTo (Z.of_nat a) (screenY s y)))
        with (Z.of_nat a) by (destruct fp; reflexivity).
      apply IH. lia.
Qed.

(** X16.  The curve never bridges a gap: in the path of drawCurve the
    first call is a [moveTo], every [lineTo] continues from the pixel
    column immediately before its own, and every later [moveTo] comes
    after at least one column that was left out. *)
Theorem drawCurve_never_bridges_a_gap (s : State) :
  well_joined None (drawCurve run_body s) = true.
Proof.
  unfold drawCurve. destruct (String.eqb (inputValue s) ""); [reflexivity |].
  apply curve_loop_well_joined. reflexivity.
Qed.

(** The loop over columns that all have a finite sample. *)
Lemma curve_loop_no_break (s : State) (e : string) (cols : list Z) :
  (forall x, In x cols ->
             breaks (sample run_body e (column_x s x)) = false) ->
  count_moveTo (curve_loop run_body s e cols false) = 0%nat /\
  forall fp, length (curve_loop run_body s e cols fp) = length cols.
Proof.
  induction cols as [|x cols IH]; intros Hall; [split; reflexivity |].
  destruct (breaks_false_Num _ (Hall x (or_introl eq_refl))) as [y Hy].
  destruct IH as [IH1 IH2]; [intros x' Hx'; apply Hall; right; exact Hx' |].
  split.
  - rewrite (curve_loop_point _ _ _ _ _ _ y Hy). exact IH1.
  - intros fp. rewrite (curve_loop_point _ _ _ _ _ _ y Hy).
    cbn [length]. rewrite IH2. reflexivity.
Qed.

(** X17.  A function defined on every column is drawn in one stroke: if
    the expression is not empty, the viewport has width at least 0 and
    every pixel column has a finite sample, the path starts with a
    [moveTo] at column 0, has no other [moveTo], has [width + 1] calls
    and forms exactly one segment. *)
Theorem drawCurve_single_segment (s : State) :
  inputValue s <> ""%string ->
  (0 <= width s)%Z ->
  (forall x, (0 <= x <= width s)%Z ->
             breaks (sample run_body (inputValue s) (column_x s x)) = false) ->
  exists y rest,
    drawCurve run_body s = MoveTo 0 (screenY s y) :: rest /\
    count_moveTo rest = 0%nat /\
    length (drawCurve run_body s) = Z.to_nat (width s + 1) /\
    length (segments (drawCurve run_body s)) = 1%nat.
Proof.
  intros Hne Hw Hall. unfold drawCurve.
  destruct (String.eqb_spec (inputValue s) ""%string) as [E | _];
    [contradiction |].
  assert (Hcols : columns s = 0%Z :: columns_after s 0).
  { rewrite (columns_split s 0) by lia. reflexivity. }
  assert (Hall' : forall x, In x (columns s) ->
            breaks (sample run_body (inputValue s) (column_x s x)) = false)
    by (intros x Hx; apply Hall, in_columns, Hx).
  destruct (curve_loop_no_break s (inputValue s) (columns s) Hall')
    as [_ Hlen].
  rewrite Hcols in Hall'.
  destruct (breaks_false_Num _ (Hall' 0%Z (or_introl eq_refl))) as [y Hy].
  destruct (curve_loop_no_break s (inputValue s) (columns_after s 0))
    as [Hcount _]; [intros x Hx; apply Hall'; right; exact Hx |].
  exists y, (curve_loop run_body s (inputValue s) (columns_after s 0) false).
  rewrite Hlen. rewrite Hcols at 1 3.
  rewrite (curve_loop_point _ _ _ _ _ _ y Hy).
  split; [reflexivity | split; [exact Hcount | split]].
  - unfold columns. rewrite length_map, length_seq. reflexivity.
  - rewrite segments_length, Hcount. reflexivity.
Qed.

End CurveShape.

Lemma drawCurve_single_segment_witness :
  inputValue (small_page "x*x") <> ""%string /\
  (0 <= width (small_page "x*x"))%Z /\
  exists y rest,
    drawCurve demo_run_body (small_page "x*x")
    = MoveTo 0 (screenY (small_page "x*x") y) :: rest /\
    count_moveTo rest = 0%nat /\
    length (drawCurve demo_run_body (small_page "x*x"))
    = Z.to_nat (width (small_page "x*x") + 1) /\
    length (segments (drawCurve demo_run_body (small_page "x*x"))) = 1%nat.
Proof.
  assert (H1 : inputValue (small_page "x*x") <> ""%string) by discriminate.
  assert (H2 : (0 <= width (small_page "x*x"))%Z) by (cbn; lia).
  split; [exact H1 | split; [exact H2 |]].
  exact (drawCurve_single_segment demo_run_body (small_page "x*x") H1 H2
           (fun x _ => eq_refl)).
Defined.

(** ** Rounding to ten significant digits *)

Lemma floor_log10_comp (u v : Q) :
  0 < u -> u == v -> floor_log10 u = floor_log10 v.
Proof.
  intros Hu E. destruct (floor_log10_spec u Hu) as [Hlo Hhi].
  symmetry. apply floor_log10_unique; rewrite <- E; assumption.
Qed.

Lemma Qabs_pos_iff (x : Q) : ~ x == 0 -> 0 < Qabs x.
Proof.
  intros Hx. destruct (Qlt_le_dec 0 (Qabs x)) as [H | H]; [exact H |].
  exfalso. apply Hx.
  pose proof (Qabs_nonneg x) as H0.
  assert (E : Qabs x == 0) by lra.
  destruct (Qlt_le_dec x 0) as [Hn | Hp].
  - rewrite Qabs_neg in E by lra. lra.
  - rewrite Qabs_pos in E by exact Hp. exact E.
Qed.

(** Rounding half up an integer gives it back. *)
Lemma Qfloor_plus_half (q : Q) (k : Z) :
  q == inject_Z k -> Qfloor (q + (1 # 2)) = k.
Proof.
  intros E.
  pose proof (Qfloor_le (q + (1 # 2))) as H1.
  pose proof (Qlt_floor (q + (1 # 2))) as H2.
  set (f := Qfloor (q + (1 # 2))) in *.
  rewrite inject_Z_plus in H2. change (inject_Z 1) with 1 in H2.
  assert (f < k + 1)%Z.
  { rewrite Zlt_Qlt, inject_Z_plus. change (inject_Z 1) with 1. lra. }
  assert (k < f + 1)%Z.
  { rewrite Zlt_Qlt, inject_Z_plus. change (inject_Z 1) with 1. lra. }
  lia.
Qed.

(** [toPrecision10] away from zero: the magnitude rounded at the tenth
    digit of its decade, with the sign put back. *)
Lemma toPrecision10_nonzero (x : Q) :
  ~ x == 0 ->
  let a := Qabs x in
  let u := 10 ^ (floor_log10 a - 9) in
  let v := inject_Z (Qfloor (a / u + (1 # 2))) * u in
  toPrecision10 x = (if Qltb x 0 then - v else v) /\
  x == (if Qltb x 0 then - a else a) /\
  0 < a /\ 0 < u /\ u * 1000000000 <= a /\
  - ((1 # 2) * u) < v - a /\ v - a <= (1 # 2) * u.
Proof.
  intros Hx a u v.
  assert (Ha : 0 < a) by (apply Qabs_pos_iff; exact Hx).
  assert (Hu : 0 < u) by apply pow10_pos.
  split; [| split; [| split; [exact Ha | split; [exact Hu | split]]]].
  - unfold toPrecision10.
    destruct (Qeq_bool x 0) eqn:E; [apply Qeq_bool_iff in E; contradiction |].
    reflexivity.
  - case_cmp.
    + unfold a. rewrite Qabs_neg by lra. ring.
    + unfold a. rewrite Qabs_pos by exact Hcmp. reflexivity.
  - destruct (floor_log10_spec a Ha) as [Hlo _].
    assert (E : u * 1000000000 == 10 ^ floor_log10 a).
    { unfold u. change 1000000000 with (10 ^ 9).
      rewrite <- Qpower_plus by discriminate.
      replace (floor_log10 a - 9 + 9)%Z with (floor_log10 a) by lia.
      reflexivity. }
    rewrite E. exact Hlo.
  - pose proof (Qfloor_le (a / u + (1 # 2))) as H1.
    pose proof (Qlt_floor (a / u + (1 # 2))) as H2.
    rewrite inject_Z_plus in H2. change (inject_Z 1) with 1 in H2.
    assert (E : a / u * u == a) by (field; lra).
    unfold v.
    set (q := a / u) in *. set (n := inject_Z (Qfloor (q + (1 # 2)))) in *.
    clearbody n q. split; nra.
Qed.

(** The rounding error is at most half a unit of the tenth digit, that is
    at most [5e-10] of the magnitude. *)
Lemma toPrecision10_close (x : Q) :
  ~ x == 0 ->
  Qabs (toPrecision10 x - x) <= (1 # 2) * 10 ^ (floor_log10 (Qabs x) - 9) /\
  Qabs (toPrecision10 x - x) * 2000000000 <= Qabs x.
Proof.
  intros Hx.
  destruct (toPrecision10_nonzero x Hx) as (Ev & Ex & Ha & Hu & Hua & Hl & Hh).
  set (a := Qabs x) in *.
  set (u := 10 ^ (floor_log10 a - 9)) in *.
  set (v := inject_Z (Qfloor (a / u + (1 # 2))) * u) in *.
  assert (Hd : Qabs (toPrecision10 x - x) <= (1 # 2) * u).
  { apply Qabs_Qle_condition. rewrite Ev. rewrite Ex at 2 4.
    destruct (Qltb x 0); split; lra. }
  split; [exact Hd | lra].
Qed.

(** A decimal of at most ten significant digits is left as it is. *)
Lemma toPrecision10_short (x : Q) (m j : Z) :
  x == inject_Z m * 10 ^ j ->
  (Z.abs m < 10 ^ 10)%Z ->
  toPrecision10 x == x.
Proof.
  intros Ex Hm.
  destruct (Qeq_dec x 0) as [E0 | Hx].
  - unfold toPrecision10.
    assert (Eb : Qeq_bool x 0 = true) by (apply Qeq_bool_iff; exact E0).
    rewrite Eb. symmetry. exact E0.
  - destruct (toPrecision10_nonzero x Hx) as (Ev & Es & Ha & Hu & _ & _ & _).
    set (a := Qabs x) in *.
    set (e := floor_log10 a) in *.
    set (u := 10 ^ (e - 9)) in *.
    assert (Ea : a == inject_Z (Z.abs m) * 10 ^ j).
    { unfold a. rewrite Ex, Qabs_Qmult.
      rewrite (Qabs_pos (10 ^ j)) by (apply Qlt_le_weak, pow10_pos).
      reflexivity. }
    pose proof (pow10_pos j) as Hj.
    assert (HM : inject_Z (Z.abs m) < 10 ^ 10).
    { change (10 ^ 10) with (inject_Z (10 ^ 10)).
      rewrite <- Zlt_Qlt. exact Hm. }
    destruct (floor_log10_spec a Ha) as [Hlo _]. fold e in Hlo.
    assert (He : (e < j + 10)%Z).
    { apply pow10_lt_inv. rewrite Qpower_plus by discriminate.
      apply Qle_lt_trans with a; [exact Hlo |]. rewrite Ea. nra. }
    set (d := (j - (e - 9))%Z).
    assert (Ed : 10 ^ j == inject_Z (10 ^ d) * u).
    { rewrite Zpower_Qpower by (unfold d; lia).
      change (inject_Z 10) with 10. unfold u.
      rewrite <- Qpower_plus by discriminate.
      replace (d + (e - 9))%Z with j by (unfold d; lia). reflexivity. }
    assert (Eq : a / u == inject_Z (Z.abs m * 10 ^ d)).
    { rewrite Ea, Ed, inject_Z_mult. field. lra. }
    assert (Ev' : inject_Z (Qfloor (a / u + (1 # 2))) * u == a).
    { rewrite (Qfloor_plus_half _ _ Eq), inject_Z_mult, Ea, Ed. ring. }
    rewrite Ev. rewrite Es at 2.
    destruct (Qltb x 0); rewrite Ev'; reflexivity.
Qed.

(** X18.  Rounding for the labels leaves short decimals alone: a number
    [m * 10^j] with [|m| < 10^10], that is with at most ten significant
    digits, is its own [parseFloat(x.toPrecision(10))]. *)
Theorem toPrecision10_keeps_short_decimals (x : Q) (m j : Z) :
  x == inject_Z m * 10 ^ j ->
  (Z.abs m < 10 ^ 10)%Z ->
  toPrecision10 x == x.
Proof. apply toPrecision10_short. Qed.

Lemma toPrecision10_keeps_short_decimals_witness :
  (-123456 # 100) == inject_Z (-123456) * 10 ^ (-2) /\
  (Z.abs (-123456) < 10 ^ 10)%Z /\
  toPrecision10 (-123456 # 100) == -123456 # 100.
Proof.
  assert (H1 : (-123456 # 100) == inject_Z (-123456) * 10 ^ (-2))
    by reflexivity.
  assert (H2 : (Z.abs (-123456) < 10 ^ 10)%Z) by reflexivity.
  split; [exact H1 | split; [exact H2 |]].
  exact (toPrecision10_keeps_short_decimals _ _ _ H1 H2).
Defined.

(** X19.  Rounding for the labels is accurate to the tenth digit: for a
    non-zero [x] the rounded value is within half a unit of the tenth
    significant digit of [x], hence within [5e-10] of its magnitude. *)
Theorem toPrecision10_error (x : Q) :
  ~ x == 0 ->
  Qabs (toPrecision10 x - x) <= (1 # 2) * 10 ^ (floor_log10 (Qabs x) - 9) /\
  Qabs (toPrecision10 x - x) * 2000000000 <= Qabs x.
Proof. apply toPrecision10_close. Qed.

Lemma toPrecision10_error_witness :
  ~ (1 # 3) == 0 /\
  Qabs (toPrecision10 (1 # 3) - (1 # 3))
  <= (1 # 2) * 10 ^ (floor_log10 (Qabs (1 # 3)) - 9) /\
  Qabs (toPrecision10 (1 # 3) - (1 # 3)) * 2000000000 <= Qabs (1 # 3).
Proof.
  assert (H : ~ (1 # 3) == 0) by discriminate.
  split; [exact H | exact (toPrecision10_error (1 # 3) H)].
Defined.

(** ** The labels of the grid *)

(** The step as an integer digit times a power of ten. *)
Lemma calculateStep_digit (c : Config) :
  0 < scale c ->
  exists (d j : Z),
    (1 <= d <= 10)%Z /\ calculateStep c == inject_Z d * 10 ^ j.
Proof.
  intros Hpos.
  destruct (calculateStep_cases c Hpos) as (_ & _ & Hc).
  set (k := floor_log10 (80 / scale c)) in *.
  destruct Hc as [[_ ->] | [(_ & _ & ->) | [(_ & _ & ->) | [_ ->]]]].
  - exists 10%Z, k. split; [lia | reflexivity].
  - exists 5%Z, k. split; [lia | reflexivity].
  - exists 2%Z, k. split; [lia | reflexivity].
  - exists 1%Z, k. split; [lia | ring].
Qed.

(** In the range of the scale the step is at least 0.0008. *)
Lemma calculateStep_at_least (s : State) :
  scale_in_range s -> 0.0008 <= calculateStep (config s).
Proof.
  intros Hs. pose proof (scale_in_range_pos s Hs) as Hpos.
  destruct (calculateStep_bounds (config s) Hpos) as (_ & _ & Hu).
  destruct Hs as [_ Hmax].
  assert (0.0008 <= 80 / scale (config s))
    by (apply Qle_shift_div_l; [exact Hpos | lra]).
  lra.
Qed.

(** X8.  Grid lines are 80 to 200 pixels apart: for a positive scale the
    step covers at least 80 pixels and fewer than 200, and in exact
    arithmetic two neighbouring ticks [k * step] and [(k + 1) * step] with
    [|k|] and [|k + 1|] below [10^9] are drawn, after the rounding of lines
    218 and 237, that many pixels apart. *)
Theorem grid_spacing_in_pixels (s : State) (k : Z) :
  0 < scale (config s) ->
  (Z.abs k < 10 ^ 9)%Z ->
  (Z.abs (k + 1) < 10 ^ 9)%Z ->
  let st := calculateStep (config s) in
  let v0 := toPrecision10 (inject_Z k * st) in
  let v1 := toPrecision10 (inject_Z (k + 1) * st) in
  80 <= st * scale (config s) /\ st * scale (config s) < 200 /\
  screenX s v1 - screenX s v0 == st * scale (config s) /\
  screenY s v0 - screenY s v1 == st * scale (config s).
Proof.
  intros Hpos Hk Hk1 st v0 v1.
  destruct (calculateStep_times_scale (config s) Hpos) as [H1 H2].
  split; [exact H1 | split; [exact H2 |]].
  destruct (calculateStep_digit (config s) Hpos) as (d & j & Hd & Ed).
  fold st in Ed.
  assert (Hshort : forall i : Z,
             (Z.abs i < 10 ^ 9)%Z ->
             toPrecision10 (inject_Z i * st) == inject_Z i * st).
  { intros i Hi. apply (toPrecision10_short _ (i * d) j).
    - rewrite Ed, inject_Z_mult. ring.
    - rewrite Z.abs_mul. replace (Z.abs d) with d by lia. nia. }
  assert (E0 : v0 == inject_Z k * st) by (apply Hshort; exact Hk).
  assert (E1 : v1 == inject_Z k * st + st).
  { unfold v1. rewrite (Hshort _ Hk1), inject_Z_plus.
    change (inject_Z 1) with 1. ring. }
  clearbody v0 v1. unfold screenX, screenY. rewrite E0, E1. split; ring.
Qed.

Lemma grid_spacing_in_pixels_witness :
  0 < scale (config demo) /\
  (Z.abs 4 < 10 ^ 9)%Z /\ (Z.abs (4 + 1) < 10 ^ 9)%Z /\
  let st := calculateStep (config demo) in
  let v0 := toPrecision10 (inject_Z 4 * st) in
  let v1 := toPrecision10 (inject_Z (4 + 1) * st) in
  80 <= st * scale (config demo) /\ st * scale (config demo) < 200 /\
  screenX demo v1 - screenX demo v0 == st * scale (config demo) /\
  screenY demo v0 - screenY demo v1 == st * scale (config demo).
Proof.
  assert (H : 0 < scale (config demo)) by reflexivity.
  assert (H0 : (Z.abs 4 < 10 ^ 9)%Z) by reflexivity.
  assert (H1 : (Z.abs (4 + 1) < 10 ^ 9)%Z) by reflexivity.
  split; [exact H | split; [exact H0 | split; [exact H1 |]]].
  exact (grid_spacing_in_pixels demo 4 H H0 H1).
Defined.

(** Past ten digits the rounding of line 218 puts neighbouring ticks on
    one line: at step 0.001 the ticks 10000000.005 and 10000000.006 are
    both drawn at 10000000.01. *)
Example ticks_past_ten_digits_coincide :
  toPrecision10 (10000000 + 5 * 0.001) == toPrecision10 (10000000 + 6 * 0.001)
  /\ ~ 10000000 + 5 * 0.001 == 10000000 + 6 * 0.001.
Proof. split; [vm_compute; reflexivity | discriminate]. Qed.

(** X20.  Which ticks get a label: for a scale in its range, the tick at
    zero has no label in either loop (the origin is labelled on its own),
    and every other multiple [k * step] has exactly one, which prints the
    tick rounded to ten digits; as long as [|k| < 10^9] that is the tick
    itself. *)
Theorem tick_labels (s : State) (k : Z) (x : Q) :
  scale_in_range s ->
  x == inject_Z k * calculateStep (config s) ->
  (k = 0%Z ->
   labels (x_tick_calls s x) = [] /\ labels (y_tick_calls s x) = []) /\
  (k <> 0%Z ->
   (exists px py,
       labels (x_tick_calls s x) = [(NumberText (toPrecision10 x), px, py)]) /\
   (exists px py,
       labels (y_tick_calls s x) = [(NumberText (toPrecision10 x), px, py)]) /\
   ((Z.abs k < 10 ^ 9)%Z -> toPrecision10 x == x)).
Proof.
  intros Hs Ex.
  pose proof (scale_in_range_pos s Hs) as Hpos.
  pose proof (calculateStep_at_least s Hs) as Hst.
  set (st := calculateStep (config s)) in *.
  split.
  - intros ->.
    assert (E0 : x == 0) by (rewrite Ex; change (inject_Z 0) with 0; ring).
    assert (Ev : toPrecision10 x = 0).
    { unfold toPrecision10.
      assert (Eb : Qeq_bool x 0 = true) by (apply Qeq_bool_iff; exact E0).
      rewrite Eb. reflexivity. }
    unfold x_tick_calls, y_tick_calls. rewrite Ev. split; reflexivity.
  - intros Hk.
    assert (Hk1 : 1 <= Qabs (inject_Z k)).
    { change (Qabs (inject_Z k)) with (inject_Z (Z.abs k)).
      change 1 with (inject_Z 1). rewrite <- Zle_Qle. lia. }
    assert (Ha : 0.0008 <= Qabs x).
    { rewrite Ex, Qabs_Qmult, (Qabs_pos st) by lra. nra. }
    assert (Hx : ~ x == 0).
    { intros E0. rewrite E0 in Ha. vm_compute in Ha. apply Ha. reflexivity. }
    destruct (toPrecision10_close x Hx) as [_ Herr].
    pose proof (Qabs_triangle_reverse x (toPrecision10 x)) as Htri.
    rewrite (Qabs_Qminus x) in Htri.
    assert (Hval : Qgtb (Qabs (toPrecision10 x)) 1e-10 = true).
    { apply Qgtb_gt.
      set (v := Qabs (toPrecision10 x)) in *.
      set (err := Qabs (toPrecision10 x - x)) in *.
      set (a := Qabs x) in *.
      assert (Ec : 1e-10 == 1 # 10000000000) by reflexivity.
      rewrite Ec. lra. }
    split; [| split].
    + unfold x_tick_calls. cbv zeta. rewrite Hval.
      eexists _, _. reflexivity.
    + unfold y_tick_calls. cbv zeta. rewrite Hval.
      eexists _, _. reflexivity.
    + intros Hsmall.
      destruct (calculateStep_digit (config s) Hpos) as (d & j & Hd & Est).
      apply (toPrecision10_short x (k * d) j).
      * rewrite Ex. fold st in Est. rewrite Est, inject_Z_mult. ring.
      * rewrite Z.abs_mul. nia.
Qed.

Lemma tick_labels_witness :
  scale_in_range demo /\
  6 == inject_Z 3 * calculateStep (config demo) /\
  (3%Z = 0%Z ->
   labels (x_tick_calls demo 6) = [] /\ labels (y_tick_calls demo 6) = []) /\
  (3%Z <> 0%Z ->
   (exists px py,
       labels (x_tick_calls demo 6)
       = [(NumberText (toPrecision10 6), px, py)]) /\
   (exists px py,
       labels (y_tick_calls demo 6)
       = [(NumberText (toPrecision10 6), px, py)]) /\
   ((Z.abs 3 < 10 ^ 9)%Z -> toPrecision10 6 == 6)).
Proof.
  assert (H : scale_in_range demo) by (split; vm_compute; discriminate).
  assert (E : 6 == inject_Z 3 * calculateStep (config demo)) by reflexivity.
  split; [exact H | split; [exact E | exact (tick_labels demo 3 6 H E)]].
Defined.

Lemma pxZero_screen (s : State) :
  pxZeroX s == screenX s 0 /\ pxZeroY s == screenY s 0.
Proof. unfold pxZeroX, pxZeroY, screenX, screenY. split; ring. Qed.

(** The clamp [Math.min(Math.max(v, lo), hi)]. *)
Lemma clamp_bounds (v lo hi : Q) :
  let r := Qmin (Qmax v lo) hi in
  r <= hi /\ (lo <= hi -> lo <= r) /\ (lo <= v -> v <= hi -> r == v).
Proof.
  intros r. unfold r. split; [apply Q.le_min_r | split].
  - intros H. apply Q.min_glb; [apply Q.le_max_r | exact H].
  - intros H1 H2. rewrite (Q.max_l v lo) by exact H1. apply Q.min_l. exact H2.
Qed.

(** X21.  Where the tick labels go: the label of a vertical grid line is
    on that line, never lower than 20 pixels above the bottom edge, at
    least 5 pixels below the top edge when the viewport is 25 pixels high
    or more, and 8 pixels below the X axis whenever that is within those
    limits; the label of a horizontal grid line is on that line, at most
    at 5 pixels left of the right edge, at least at 30 pixels when the
    viewport is 35 pixels wide or more, and 8 pixels left of the Y axis
    whenever that is within those limits. *)
Theorem tick_label_positions (s : State) (x : Q) :
  let W := inject_Z (width s) in
  let H := inject_Z (height s) in
  (forall t px py,
      In (t, px, py) (labels (x_tick_calls s x)) ->
      px == screenX s (toPrecision10 x) /\
      py <= H - 20 /\
      (25 <= H -> 5 <= py) /\
      (5 <= screenY s 0 + 8 -> screenY s 0 + 8 <= H - 20 ->
       py == screenY s 0 + 8)) /\
  (forall t px py,
      In (t, px, py) (labels (y_tick_calls s x)) ->
      py == screenY s (toPrecision10 x) /\
      px <= W - 5 /\
      (35 <= W -> 30 <= px) /\
      (30 <= screenX s 0 - 8 -> screenX s 0 - 8 <= W - 5 ->
       px == screenX s 0 - 8)).
Proof.
  intros W H. destruct (pxZero_screen s) as [EX EY]. split.
  - intros t px py Hin. unfold x_tick_calls in Hin. cbv zeta in Hin.
    destruct (Qgtb (Qabs (toPrecision10 x)) 1e-10); [| destruct Hin].
    destruct Hin as [Hin | []]. injection Hin as _ <- <-.
    destruct (clamp_bounds (pxZeroY s + 8) 5 (H - 20)) as (B1 & B2 & B3).
    fold (pxZeroY s). fold H.
    split; [reflexivity | split; [exact B1 | split]].
    + intros HH. apply B2. lra.
    + intros H1 H2. rewrite B3; lra.
  - intros t px py Hin. unfold y_tick_calls in Hin. cbv zeta in Hin.
    destruct (Qgtb (Qabs (toPrecision10 x)) 1e-10); [| destruct Hin].
    destruct Hin as [Hin | []]. injection Hin as _ <- <-.
    destruct (clamp_bounds (pxZeroX s - 8) 30 (W - 5)) as (B1 & B2 & B3).
    fold (pxZeroX s). fold W.
    split; [reflexivity | split; [exact B1 | split]].
    + intros HW. apply B2. lra.
    + intros H1 H2. rewrite B3; lra.
Qed.

(** X22.  The origin label comes with both axes: whenever drawGrid
    labels the origin, the origin is strictly inside the viewport, both
    axes are drawn through it from edge to edge, and the label sits 5
    pixels left of and 5 pixels below the crossing. *)
Theorem origin_label_has_both_axes (s : State) :
  origin_calls s <> [] ->
  let W := inject_Z (width s) in
  let H := inject_Z (height s) in
  (0 < screenX s 0 /\ screenX s 0 < W /\ 0 < screenY s 0 /\ screenY s 0 < H) /\
  origin_calls s = [fillText (Literal "0") (pxZeroX s - 5) (pxZeroY s + 5)] /\
  axis_calls s = [moveTo 0 (pxZeroY s); lineTo W (pxZeroY s);
                  moveTo (pxZeroX s) 0; lineTo (pxZeroX s) H] /\
  pxZeroX s == screenX s 0 /\ pxZeroY s == screenY s 0.
Proof.
  intros Ho W H. destruct (pxZero_screen s) as [EX EY].
  unfold origin_calls in *. fold W H in Ho. fold W H.
  destruct (Qgtb (pxZeroX s) 0) eqn:A1; [| contradiction Ho; reflexivity].
  destruct (Qltb (pxZeroX s) W) eqn:A2; [| contradiction Ho; reflexivity].
  destruct (Qgtb (pxZeroY s) 0) eqn:A3; [| contradiction Ho; reflexivity].
  destruct (Qltb (pxZeroY s) H) eqn:A4; [| contradiction Ho; reflexivity].
  apply Qgtb_gt in A1, A3. apply Qltb_lt in A2, A4.
  split; [rewrite <- EX, <- EY; tauto |].
  split; [reflexivity |].
  split; [| split; assumption].
  unfold axis_calls. fold W H.
  assert (B1 : Qle_bool (-10) (pxZeroY s) = true) by (apply Qle_bool_iff; lra).
  assert (B2 : Qle_bool (pxZeroY s) (H + 10) = true)
    by (apply Qle_bool_iff; lra).
  assert (B3 : Qle_bool (-10) (pxZeroX s) = true) by (apply Qle_bool_iff; lra).
  assert (B4 : Qle_bool (pxZeroX s) (W + 10) = true)
    by (apply Qle_bool_iff; lra).
  rewrite B1, B2, B3, B4. reflexivity.
Qed.

Lemma origin_label_has_both_axes_witness :
  origin_calls demo <> [] /\
  let W := inject_Z (width demo) in
  let H := inject_Z (height demo) in
  (0 < screenX demo 0 /\ screenX demo 0 < W /\
   0 < screenY demo 0 /\ screenY demo 0 < H) /\
  origin_calls demo
  = [fillText (Literal "0") (pxZeroX demo - 5) (pxZeroY demo + 5)] /\
  axis_calls demo = [moveTo 0 (pxZeroY demo); lineTo W (pxZeroY demo);
                     moveTo (pxZeroX demo) 0; lineTo (pxZeroX demo) H] /\
  pxZeroX demo == screenX demo 0 /\ pxZeroY demo == screenY demo 0.
Proof.
  assert (H : origin_calls demo <> []) by discriminate.
  split; [exact H | exact (origin_label_has_both_axes demo H)].
Defined.

(** ** The same lines on binary64 *)

(** The clamp of lines 143-144 holds on binary64 as it does in exact
    arithmetic: whatever the product was, the new scale is neither below
    0.001 nor above 100000. *)
Lemma B64_onWheel_scale_in_range
      (d x y l t : PrimFloat.float) (s : B64.State) :
  B64.scale_in_range (B64.onWheel d x y l t s).
Proof.
  unfold B64.scale_in_range, B64.onWheel. cbv zeta. cbn [B64.scale].
  destruct (PrimFloat.ltb (PrimFloat.mul (B64.scale s) _) _) eqn:E1.
  - split; vm_compute; reflexivity.
  - destruct (PrimFloat.ltb _ (PrimFloat.mul (B64.scale s) _)) eqn:E2.
    + split; vm_compute; reflexivity.
    + split; assumption.
Qed.

Lemma B64_handle_scale_in_range (s : B64.State) (e : B64.Event) :
  B64.scale_in_range s -> B64.scale_in_range (B64.handle s e).
Proof.
  intros Hs. destruct e; cbn [B64.handle].
  - exact Hs.
  - split; vm_compute; reflexivity.
  - unfold B64.onMouseDown. destruct (button =? 0)%Z; exact Hs.
  - exact Hs.
  - unfold B64.onMouseMove. destruct (B64.isDragging s); exact Hs.
  - apply B64_onWheel_scale_in_range.
Qed.

Lemma B64_run_scale_in_range (es : list B64.Event) :
  forall s : B64.State,
    B64.scale_in_range s -> B64.scale_in_range (B64.run s es).
Proof.
  induction es as [|e es IH]; intros s Hs; [exact Hs |].
  cbn [B64.run fold_left]. apply IH, B64_handle_scale_in_range, Hs.
Qed.

(** Three moves of one pixel and one move of three pixels leave different
    offsets: 0.075000000000000011 against 0.074999999999999997. *)
Example drag_route_matters_on_binary64 :
  PrimFloat.eqb (B64.offsetX B64.demo_three_moves)
                (B64.offsetX B64.demo_one_move) = false.
Proof. vm_compute. reflexivity. Qed.

(** At the lower limit a wheel-down event keeps the scale and moves the
    offsets 0.1 and 0.2 to 0.10000000000582077 and 0.20000000001164153. *)
Example wheel_at_limit_rounds_on_binary64 :
  B64.scale B64.demo_min_wheeled = B64.scale B64.demo_min /\
  PrimFloat.eqb (B64.offsetX B64.demo_min_wheeled)
                (B64.offsetX B64.demo_min) = false /\
  PrimFloat.eqb (B64.offsetY B64.demo_min_wheeled)
                (B64.offsetY B64.demo_min) = false.
Proof. vm_compute. repeat split. Qed.

(** From scale 44 a notch in and a notch out give 43.560000000000009, and
    99% of 44 is 43.560000000000002. *)
Example wheel_in_then_out_rounds_on_binary64 :
  PrimFloat.eqb
    (B64.scale B64.demo_in_out)
    (PrimFloat.mul B64.ninety_nine_percent (B64.scale B64.demo_zoomed))
  = false.
Proof. vm_compute. reflexivity. Qed.

(** At scale 400 with both offsets 2 the exact loops make 11 and 9 turns;
    on binary64 the sums of 0.2 overshoot the bound and the loops make 10
    and 8, leaving out the tick of the last column and of the top row. *)
Example tick_loops_lose_a_turn_on_binary64 :
  calculateStep (config demo_400) == 0.2 /\
  option_map (@length Q) (xTicks 30 demo_400) = Some 11%nat /\
  option_map (@length Q) (yTicks 30 demo_400) = Some 9%nat /\
  option_map (@length PrimFloat.float)
             (B64.xTicks 30 B64.step_at_400 B64.demo_400) = Some 10%nat /\
  option_map (@length PrimFloat.float)
             (B64.yTicks 30 B64.step_at_400 B64.demo_400) = Some 8%nat.
Proof. vm_compute. repeat split. Qed.

(** X23.  On binary64 drawGrid does not always return: in a state where
    [x + step] rounds back to [x] at the first value of a tick loop while
    the loop test holds, that loop never leaves, however many turns it is
    given.  One drag far enough reaches such a state for either loop. *)
Theorem grid_loop_never_leaves_once_step_is_absorbed
        (step : PrimFloat.float) (s : B64.State) :
  (PrimFloat.add (B64.minX step s) step = B64.minX step s ->
   PrimFloat.leb (B64.minX step s) (B64.maxX step s) = true ->
   forall fuel : nat, B64.xTicks fuel step s = None) /\
  (PrimFloat.add (B64.minY step s) step = B64.minY step s ->
   PrimFloat.leb (B64.minY step s) (B64.maxY step s) = true ->
   forall fuel : nat, B64.yTicks fuel step s = None).
Proof.
  split; intros Hadd Hle fuel; apply B64_for_ticks_stuck; assumption.
Qed.

Lemma grid_loop_never_leaves_once_step_is_absorbed_witness :
  B64.scale_in_range B64.demo_far_down /\
  forall fuel : nat,
    B64.yTicks fuel B64.step_at_40 B64.demo_far_down = None.
Proof.
  split.
  - apply B64_run_scale_in_range. split; vm_compute; reflexivity.
  - apply (proj2 (grid_loop_never_leaves_once_step_is_absorbed
                    B64.step_at_40 B64.demo_far_down));
      vm_compute; reflexivity.
Defined.

(** ** A whole drag *)

(** X24.  In exact arithmetic a drag pans by its displacement: pressing
    the left button at [(px, py)], moving along any route to [(qx, qy)] and
    releasing there shifts every drawn math point by [(qx - px, qy - py)]
    pixels, whatever the route and wherever the pointer was before the
    press; the scale is untouched and no drag is left under way.  On
    binary64 the equality is not exact. *)
Theorem drag_gesture_pans_by_displacement (path : list (Q * Q))
    (s : State) (px py qx qy x y : Q) :
  0 < scale (config s) ->
  let s' := run s (MouseDown 0 px py
                   :: moves (path ++ [(qx, qy)]) ++ [MouseUp]) in
  screenX s' x == screenX s x + (qx - px) /\
  screenY s' y == screenY s y + (qy - py) /\
  scale (config s') = scale (config s) /\
  isDragging s' = false.
Proof.
  intros Hpos s'.
  set (s1 := onMouseDown 0 px py s).
  assert (Hd1 : isDragging s1 = true) by reflexivity.
  assert (Hp1 : 0 < scale (config s1)) by exact Hpos.
  destruct (moves_while_dragging path s1 qx qy Hd1 Hp1)
    as (Hx & Hy & Hs & _ & _ & _ & Hcx & Hcy).
  set (s2 := run s1 (moves (path ++ [(qx, qy)]))) in *.
  assert (E : s' = onMouseUp s2).
  { unfold s'. cbn [run fold_left handle]. fold s1.
    fold (run s1 (moves (path ++ [(qx, qy)]) ++ [MouseUp])).
    rewrite run_app. reflexivity. }
  rewrite E. unfold screenX, screenY.
  cbn [onMouseUp set_drag config centerX centerY isDragging].
  rewrite Hx, Hy, Hs, Hcx, Hcy.
  cbn [s1 onMouseDown Z.eqb set_drag config centerX centerY lastMouseX
       lastMouseY].
  repeat split; try reflexivity; field; lra.
Qed.

Lemma drag_gesture_pans_by_displacement_witness :
  0 < scale (config demo) /\
  let s' := run demo (MouseDown 0 100 100
                      :: moves ([(130, 85); (90, 300)] ++ [(120, 140)])
                         ++ [MouseUp]) in
  screenX s' 2 == screenX demo 2 + (120 - 100) /\
  screenY s' 3 == screenY demo 3 + (140 - 100) /\
  scale (config s') = scale (config demo) /\
  isDragging s' = false.
Proof.
  assert (H : 0 < scale (config demo)) by reflexivity.
  split; [exact H |].
  exact (drag_gesture_pans_by_displacement [(130, 85); (90, 300)]
           demo 100 100 120 140 2 3 H).
Defined.

(** ** More scenarios *)

Example toPrecision10_values :
  map (fun x => Qred (toPrecision10 x))
      [0; 1 # 3; - (2 # 3); 123456789012345 # 1000; 99999999999 # 10]
  = [0; 0.3333333333; -0.6666666667; 123456789000; 10000000000].
Proof. vm_compute. reflexivity. Qed.

(** The default 800 by 600 view: 11 vertical and 9 horizontal lines, a
    label on each but the two through the origin, both axes, and the
    origin label. *)
Example drawGrid_demo :
  option_map (fun calls => (length calls, length (labels calls)))
             (drawGrid 12 demo)
  = Some (68%nat, 19%nat).
Proof. vm_compute. reflexivity. Qed.

Example well_joined_demo_gap :
  well_joined None (drawCurve demo_run_body demo_gap) = true /\
  map cmd_x (drawCurve demo_run_body demo_gap) = [0; 1; 2; 3; 5; 6; 7; 8]%Z.
Proof. vm_compute. split; reflexivity. Qed.
